(** * Kora rent reclaimer: shallow embedding of the account store, the
    scanner, the safety gate and the reclaim engine.

    Conventions of the model.
    - Public keys are their base58 strings. `new PublicKey(s)` is
      [publicKeyError]: bs58's decode (base-x) followed by the length
      check of web3.js; a string that passes it is the base58 encoding of
      its 32 bytes, so [toBase58] is the identity. A character of a key
      string is a code unit below 256.
    - Timestamps are milliseconds since the epoch ([Z]); SQLite's
      `datetime('now')` and `Date.now()` are the world's [w_now].
    - Lamports are [Z] (a JS number holds them exactly below 2^53).
      Day counts, which the source computes by division, are rationals
      ([Q]); compared with an integer MIN_IDLE_DAYS below 10^8 they
      decide as the source's doubles do. The per-run budget, a SOL amount parsed by parseFloat, and
      the arithmetic on it are binary64 doubles: Rocq's primitive
      [float], whose operations are the IEEE 754 ones JS performs.
    - The SQLite tables are a [gmap] keyed by pubkey (the UNIQUE column),
      an append-only list for `reclaim_history`, a [gset] for `whitelist`.
    - Calls to the RPC node and to the token library are oracles of the
      world; the number of submissions so far indexes the send oracle. *)

From Stdlib Require Import ZArith QArith List String Ascii Bool Lia.
From stdpp Require Import base gmap sets strings list pretty.
From Stdlib Require Import Lqa.
From Stdlib Require PrimFloat Uint63.

Open Scope Z_scope.


(* ------------------------------------------------------------------ *)
(** ** Data model (database.ts, scanner.ts) *)

Inductive AccountState := Active | Closed | Reclaimed | Skipped.

(** [SponsoredAccount] of database.ts (the row id is not modelled). *)
Record SponsoredAccount := mkSponsoredAccount {
  sa_pubkey : string;
  sa_programOwner : option string;
  sa_sponsorSignature : option string;
  sa_lamports : Z;
  sa_createdAt : Z;
  sa_lastChecked : option Z;
  sa_status : AccountState;
  sa_reclaimableSince : option Z;
  sa_closeAuthority : option string;
  sa_operatorCanClose : bool
}.

Inductive HistoryStatus := HSuccess | HFailed | HSkipped.

(** [ReclaimHistoryEntry]; the timestamp column is SQLite's default. *)
Record ReclaimHistoryEntry := mkHistory {
  h_pubkey : string;
  h_lamportsReclaimed : Z;
  h_status : HistoryStatus;
  h_reason : option string;
  h_txSignature : option string;
  h_timestamp : Z
}.

Record DB := mkDB {
  sponsored_accounts : gmap string SponsoredAccount;
  reclaim_history : list ReclaimHistoryEntry;
  whitelist : gset string
}.

(** [AccountStatus] of scanner.ts. An absent optional field is [None];
    a missing boolean ([operatorCanClose] in [reclaimSingle]) is
    `undefined`, which every test in the code reads as [false]. *)
Record AccountStatus := mkAccountStatus {
  st_pubkey : string;
  st_exists : bool;
  st_lamports : Z;
  st_owner : option string;
  st_dataLength : Z;
  st_executable : bool;
  st_isTokenAccount : bool;
  st_isReclaimable : bool;
  st_skipReason : option string;
  st_closeAuthority : option string;
  st_operatorCanClose : bool
}.

(** Reasons of the safety checks. The formatted ones keep the values
    the template literal prints. *)
Inductive Reason :=
| RWhitelisted                    (* 'Account is whitelisted' *)
| RExecutable                     (* 'Executable program account' *)
| RAlreadyClosed                  (* 'Account already closed' *)
| RCheckedRecently (days : Q) (min : Z)   (* `Account checked ${d} days ago (min: ${m})` *)
| RNotAuthority                   (* 'Operator is not the close authority' *)
| RNotIdleState                   (* 'Account not yet in idle/reclaimable state' *)
| RReclaimableFor (days : Q) (min : Z)    (* `Account reclaimable for ${d} days (min: ${m})` *)
| RLimit (maxSol : PrimFloat.float) (* `Would exceed max reclaim limit (${m} SOL per run)` *)
| RMsg (msg : string).            (* any other error message *)

Record SafetyCheckResult := mkCheck {
  allowed : bool;
  reason : option Reason
}.

Definition ok_check : SafetyCheckResult := mkCheck true None.
Definition deny (r : Reason) : SafetyCheckResult := mkCheck false (Some r).

(** The two instructions [createCloseInstruction] can build. *)
Inductive TransactionInstruction :=
| CloseAccountIx (account destination authority : string)
| TransferIx (fromPubkey toPubkey : string) (lamports : Z).

(** ** JS numbers and public keys *)

(** The JS number of an integer amount: the double nearest to it
    ([of_uint63] rounds to nearest), for amounts below 2^63 in absolute
    value. *)
Definition toNumber (z : Z) : PrimFloat.float :=
  if Z.ltb z 0 then PrimFloat.opp (PrimFloat.of_uint63 (Uint63.of_Z (- z)))
  else PrimFloat.of_uint63 (Uint63.of_Z z).

(** The literal `1e9`. *)
Definition ONE_E9 : PrimFloat.float := toNumber 1000000000.

(** `Math.max(0, x)`: NaN when [x] is NaN, [x] when it is above 0, and
    +0 otherwise. *)
Definition mathMax0 (x : PrimFloat.float) : PrimFloat.float :=
  if PrimFloat.is_nan x then x
  else if PrimFloat.ltb (toNumber 0) x then x else toNumber 0.

(** bs58's alphabet, and base-x's BASE_MAP: the digit of a character. *)
Definition BASE58_ALPHABET : string :=
  "123456789ABCDEFGHJKLMNPQRSTUVWXYZabcdefghijkmnopqrstuvwxyz".

Fixpoint digit_in (c : ascii) (alphabet : string) (i : Z) : option Z :=
  match alphabet with
  | EmptyString => None
  | String d rest => if Ascii.eqb c d then Some i else digit_in c rest (i + 1)
  end.

Definition base58Digit (c : ascii) : option Z := digit_in c BASE58_ALPHABET 0.

(** base-x decodeUnsafe skips and counts the leading '1's (the LEADER),
    one zero byte each. *)
Fixpoint countLeader (source : string) : nat * string :=
  match source with
  | String "1"%char rest => let '(zeroes, r) := countLeader rest in (S zeroes, r)
  | _ => (O, source)
  end.

(** The value of the remaining digits, `b256 = b256 * 58 + carry`;
    [None] (decodeUnsafe returns undefined) at a character outside the
    alphabet. *)
Fixpoint base58Value (source : string) (acc : Z) : option Z :=
  match source with
  | EmptyString => Some acc
  | String c rest =>
      match base58Digit c with
      | None => None
      | Some carry => base58Value rest (acc * 58 + carry)
      end
  end.

(** The number of bytes left once the leading zero bytes of [b256] are
    skipped. *)
Definition byteLength (v : Z) : nat :=
  if Z.eqb v 0 then O else Z.to_nat (Z.log2 v / 8 + 1).

(** The length of `bs58.decode(source)`; [None] when decode throws
    'Non-base58 character'. The empty string decodes to no bytes. *)
Definition bs58DecodedLength (source : string) : option nat :=
  let '(zeroes, rest) := countLeader source in
  match base58Value rest 0 with
  | None => None
  | Some v => Some (zeroes + byteLength v)%nat
  end.

Definition PUBLIC_KEY_LENGTH : nat := 32.

(** `new PublicKey(s)` for a string [s]: [Some msg] with the message it
    throws, [None] when it succeeds. *)
Definition publicKeyError (s : string) : option string :=
  match bs58DecodedLength s with
  | None => Some "Non-base58 character"
  | Some n => if Nat.eqb n PUBLIC_KEY_LENGTH then None else Some "Invalid public key input"
  end.

Definition validPublicKey (s : string) : bool :=
  match publicKeyError s with None => true | Some _ => false end.

(** The configuration and the external services a run talks to. *)
Inductive TokenQuery :=
| TokenFound (amount : Z)         (* getAccount succeeded *)
| TokenNotFound                   (* TokenAccountNotFoundError *)
| TokenError (msg : string).      (* any other error thrown *)

Record World := mkWorld {
  w_now : Z;
  w_cfgWhitelist : gset string;           (* configManager whitelist *)
  w_minIdleDays : Z;
  w_maxReclaimSolPerRun : PrimFloat.float;    (* parseFloat(MAX_RECLAIM_SOL_PER_RUN) *)
  w_dryRun : bool;
  w_treasuryAddress : string;
  w_operatorKey : option string;          (* None: loadOperatorKeypair throws *)
  w_operatorKeyError : string;            (* the message it throws *)
  w_getAccount : string -> TokenQuery;    (* spl-token getAccount *)
  w_send : nat -> list TransactionInstruction -> string + string
    (* sendAndConfirmTransaction of the n-th submission of the run:
       inl signature, or inr the error message *)
}.

(* ------------------------------------------------------------------ *)
(** ** AccountStore (database.ts, DatabaseManager) *)

Module Store.

(** An `UPDATE sponsored_accounts SET ... WHERE pubkey = ?`: rewrites the
    row with that key, does nothing when there is none. *)
Definition update_row (pk : string) (f : SponsoredAccount -> SponsoredAccount)
    (db : DB) : DB :=
  match sponsored_accounts db !! pk with
  | Some a => mkDB (<[pk := f a]> (sponsored_accounts db)) (reclaim_history db) (whitelist db)
  | None => db
  end.

Definition with_status (s : AccountState) (lam : option Z) (now : Z)
    (a : SponsoredAccount) : SponsoredAccount :=
  mkSponsoredAccount (sa_pubkey a) (sa_programOwner a) (sa_sponsorSignature a)
    (match lam with Some l => l | None => sa_lamports a end)
    (sa_createdAt a) (Some now) s (sa_reclaimableSince a)
    (sa_closeAuthority a) (sa_operatorCanClose a).

Definition with_authority (auth : option string) (can : bool)
    (a : SponsoredAccount) : SponsoredAccount :=
  mkSponsoredAccount (sa_pubkey a) (sa_programOwner a) (sa_sponsorSignature a)
    (sa_lamports a) (sa_createdAt a) (sa_lastChecked a) (sa_status a)
    (sa_reclaimableSince a) auth can.

Definition with_reclaimableSince (rs : option Z)
    (a : SponsoredAccount) : SponsoredAccount :=
  mkSponsoredAccount (sa_pubkey a) (sa_programOwner a) (sa_sponsorSignature a)
    (sa_lamports a) (sa_createdAt a) (sa_lastChecked a) (sa_status a)
    rs (sa_closeAuthority a) (sa_operatorCanClose a).

(** addAccount: `INSERT OR REPLACE INTO sponsored_accounts (...) VALUES (...)`
    with every column taken from the argument. *)
Definition addAccount (a : SponsoredAccount) (db : DB) : DB :=
  mkDB (<[sa_pubkey a := a]> (sponsored_accounts db)) (reclaim_history db) (whitelist db).

(** addAccountsBatch: the same statement for each account, in order. *)
Definition addAccountsBatch (accounts : list SponsoredAccount) (db : DB) : DB :=
  fold_left (fun db a => addAccount a db) accounts db.

(** A property of a JS object that may be absent ([undefined]). *)
Inductive Js (A : Type) := Undefined | Defined (v : A).
Arguments Undefined {A}.
Arguments Defined {A} v.

(** The object addAccount and addAccountsBatch receive. Its type is
    `Omit<SponsoredAccount, 'id'>`, but the callers of kora.ts leave out
    reclaimableSince, closeAuthority and operatorCanClose. *)
Record AccountInput := mkAccountInput {
  ai_pubkey : string;
  ai_programOwner : option string;
  ai_sponsorSignature : option string;
  ai_lamports : Z;
  ai_createdAt : Z;
  ai_lastChecked : option Z;
  ai_status : AccountState;
  ai_reclaimableSince : Js (option Z);
  ai_closeAuthority : Js (option string);
  ai_operatorCanClose : Js bool
}.

(** What sql.js's bindValue throws for a parameter whose type is
    `undefined`. *)
Definition SQLJS_BIND_UNDEFINED : string :=
  "Wrong API use : tried to bind a value of an unknown type (undefined).".

Definition bindJs {A} (x : Js A) : string + A :=
  match x with Undefined => inl SQLJS_BIND_UNDEFINED | Defined v => inr v end.

(** `db.run(INSERT OR REPLACE ..., [...])` on such an object: the ten
    parameters are bound in order before the statement runs, so an
    undefined reclaimableSince (the 8th) or closeAuthority (the 9th)
    throws and writes nothing; `operatorCanClose ? 1 : 0` is 0 when it
    is undefined. *)
Definition insertInput (a : AccountInput) (db : DB) : string + DB :=
  match bindJs (ai_reclaimableSince a) with
  | inl e => inl e
  | inr rs =>
      match bindJs (ai_closeAuthority a) with
      | inl e => inl e
      | inr ca =>
          let can := match ai_operatorCanClose a with Defined true => true | _ => false end in
          inr (addAccount (mkSponsoredAccount (ai_pubkey a) (ai_programOwner a)
                             (ai_sponsorSignature a) (ai_lamports a) (ai_createdAt a)
                             (ai_lastChecked a) (ai_status a) rs ca can) db)
      end
  end.

(** addAccountsBatch on such objects: [Some msg] and the in-memory store
    at the throw, or [None] and the store after every insert. *)
Fixpoint addAccountsBatchInput (accounts : list AccountInput) (db : DB) : option string * DB :=
  match accounts with
  | [] => (None, db)
  | a :: rest =>
      match insertInput a db with
      | inl e => (Some e, db)
      | inr db1 => addAccountsBatchInput rest db1
      end
  end.

Definition getAccount (db : DB) (pk : string) : option SponsoredAccount :=
  sponsored_accounts db !! pk.

(** updateAccountStatus(pubkey, status, lamports?): also sets
    `last_checked = datetime('now')`. *)
Definition updateAccountStatus (now : Z) (pk : string) (s : AccountState)
    (lam : option Z) (db : DB) : DB :=
  update_row pk (with_status s lam now) db.

Definition updateAccountAuthority (pk : string) (auth : option string)
    (can : bool) (db : DB) : DB :=
  update_row pk (with_authority auth can) db.

(** markAsReclaimable: `SET reclaimable_since = datetime('now')
    WHERE pubkey = ? AND reclaimable_since IS NULL`. *)
Definition markAsReclaimable (now : Z) (pk : string) (db : DB) : DB :=
  match sponsored_accounts db !! pk with
  | Some a =>
      match sa_reclaimableSince a with
      | None => mkDB (<[pk := with_reclaimableSince (Some now) a]> (sponsored_accounts db))
                     (reclaim_history db) (whitelist db)
      | Some _ => db
      end
  | None => db
  end.

(** clearReclaimableState: `SET reclaimable_since = NULL WHERE pubkey = ?`. *)
Definition clearReclaimableState (pk : string) (db : DB) : DB :=
  update_row pk (with_reclaimableSince None) db.

(** addReclaimHistory: `INSERT INTO reclaim_history`, timestamp defaulted. *)
Definition addReclaimHistory (now : Z) (pk : string) (lam : Z) (st : HistoryStatus)
    (r : option string) (sig : option string) (db : DB) : DB :=
  mkDB (sponsored_accounts db) (reclaim_history db ++ [mkHistory pk lam st r sig now])
       (whitelist db).

Definition isWhitelisted (db : DB) (pk : string) : bool :=
  bool_decide (pk ∈ whitelist db).

(** getAllAccounts: `SELECT * FROM sponsored_accounts`. SQLite leaves
    the row order open; here it is the map's order. *)
Definition getAllAccounts (db : DB) : list SponsoredAccount :=
  map snd (map_to_list (sponsored_accounts db)).

Definition state_eqb (s t : AccountState) : bool :=
  match s, t with
  | Active, Active | Closed, Closed | Reclaimed, Reclaimed | Skipped, Skipped => true
  | _, _ => false
  end.

(** getActiveAccounts: `SELECT * ... WHERE status = 'active'`. *)
Definition getActiveAccounts (db : DB) : list SponsoredAccount :=
  List.filter (fun a => state_eqb (sa_status a) Active) (getAllAccounts db).

(** getAccountCount: the four counting queries of the table. *)
Record AccountCount := mkAccountCount {
  c_total : nat;
  c_active : nat;
  c_closed : nat;
  c_reclaimed : nat
}.

Definition countStatus (s : AccountState) (db : DB) : nat :=
  length (List.filter (fun a => state_eqb (sa_status a) s) (getAllAccounts db)).

Definition getAccountCount (db : DB) : AccountCount :=
  mkAccountCount (length (getAllAccounts db)) (countStatus Active db)
    (countStatus Closed db) (countStatus Reclaimed db).

Definition isSuccess (h : ReclaimHistoryEntry) : bool :=
  match h_status h with HSuccess => true | _ => false end.

(** getTotalReclaimed: `SELECT SUM(lamports_reclaimed) ... WHERE status =
    'success'`; the SUM of no row is NULL, which `Number(..) || 0` reads
    as 0. *)
Definition getTotalReclaimed (db : DB) : Z :=
  fold_right (fun h t => h_lamportsReclaimed h + t) 0
    (List.filter isSuccess (reclaim_history db)).

(** addToWhitelist: `INSERT OR IGNORE INTO whitelist (pubkey, reason)`
    (the reason column is not modelled). *)
Definition addToWhitelist (pk : string) (db : DB) : DB :=
  mkDB (sponsored_accounts db) (reclaim_history db) ({[pk]} ∪ whitelist db).

(** removeFromWhitelist: `DELETE FROM whitelist WHERE pubkey = ?`. *)
Definition removeFromWhitelist (pk : string) (db : DB) : DB :=
  mkDB (sponsored_accounts db) (reclaim_history db) (whitelist db ∖ {[pk]}).

(** The pubkeys of getWhitelist (`SELECT * FROM whitelist`). *)
Definition getWhitelist (db : DB) : list string := elements (whitelist db).

Definition quote : Ascii.ascii := "'"%char.

(** escapeString: `str.replace(/'/g, ...)`, every quote doubled. *)
Fixpoint escapeString (str : string) : string :=
  match str with
  | EmptyString => EmptyString
  | String c rest =>
      if Ascii.eqb c quote then String quote (String quote (escapeString rest))
      else String c (escapeString rest)
  end.


(** The statement getAccount hands to `db.exec`. *)
Definition getAccountQuery (pubkey : string) : string :=
  ("SELECT * FROM sponsored_accounts WHERE pubkey = '" ++ escapeString pubkey ++ "'")%string.

End Store.

(* ------------------------------------------------------------------ *)
(** ** SafetyGate (safety.ts, SafetyManager) *)

Definition ms_per_day : positive := 86400000.

(** `(Date.now() - t.getTime()) / (1000 * 60 * 60 * 24)` *)
Definition daysSince (now t : Z) : Q := Qmake (now - t) ms_per_day.

Definition Qltb (x y : Q) : bool := negb (Qle_bool y x).

Module Safety.

(** SafetyManager.isWhitelisted: database set or configuration set. *)
Definition isWhitelisted (w : World) (db : DB) (pk : string) : bool :=
  Store.isWhitelisted db pk || bool_decide (pk ∈ w_cfgWhitelist w).

(** checkReclaimLimit (lines 489-501), in doubles: [total] is
    `totalReclaimedThisRun`; `potentialTotal > maxReclaimSolPerRun`
    denies. *)
Definition checkReclaimLimit (w : World) (total lamports : Z) : SafetyCheckResult :=
  let solAmount := PrimFloat.div (toNumber lamports) ONE_E9 in
  let potentialTotal := PrimFloat.add (PrimFloat.div (toNumber total) ONE_E9) solAmount in
  if PrimFloat.ltb (w_maxReclaimSolPerRun w) potentialTotal
  then deny (RLimit (w_maxReclaimSolPerRun w))
  else ok_check.

(** getRemainingBudget (lines 552-555), in doubles:
    `Math.max(0, maxReclaimSolPerRun * 1e9 - totalReclaimedThisRun)`. *)
Definition getRemainingBudget (w : World) (total : Z) : PrimFloat.float :=
  let maxLamports := PrimFloat.mul (w_maxReclaimSolPerRun w) ONE_E9 in
  mathMax0 (PrimFloat.sub maxLamports (toNumber total)).

(** *** The SafetyManager of src/unnamed/part_002 (lines 424-561) *)

(** checkIdleDuration (part_002): measured from [lastChecked]. *)
Definition checkIdleDuration_v2 (w : World) (db : DB) (pk : string) : SafetyCheckResult :=
  match Store.getAccount db pk with
  | None => ok_check                                   (* no history = ok *)
  | Some a =>
      match sa_lastChecked a with
      | None => ok_check                               (* never checked = ok *)
      | Some lc =>
          let d := daysSince (w_now w) lc in
          if Qltb d (inject_Z (w_minIdleDays w))
          then deny (RCheckedRecently d (w_minIdleDays w))
          else ok_check
      end
  end.

(** checkAccount (part_002, lines 442-467). *)
Definition checkAccount_v2 (w : World) (db : DB) (total : Z) (a : AccountStatus)
    : SafetyCheckResult :=
  if isWhitelisted w db (st_pubkey a) then deny RWhitelisted
  else if st_executable a then deny RExecutable
  else if negb (st_exists a) then deny RAlreadyClosed
  else
    let idleCheck := checkIdleDuration_v2 w db (st_pubkey a) in
    if negb (allowed idleCheck) then idleCheck
    else
      let limitCheck := checkReclaimLimit w total (st_lamports a) in
      if negb (allowed limitCheck) then limitCheck
      else ok_check.

(** *** The SafetyManager of src/unnamed/part_003 (lines 17-167) *)

(** checkIdleDuration (part_003): measured from [reclaimableSince]. *)
Definition checkIdleDuration_v3 (w : World) (db : DB) (pk : string) : SafetyCheckResult :=
  match Store.getAccount db pk with
  | None => ok_check                                   (* no history = ok *)
  | Some a =>
      match sa_reclaimableSince a with
      | None => deny RNotIdleState
      | Some rs =>
          let d := daysSince (w_now w) rs in
          if Qltb d (inject_Z (w_minIdleDays w))
          then deny (RReclaimableFor d (w_minIdleDays w))
          else ok_check
      end
  end.

(** checkAccount (part_003, lines 35-65). *)
Definition checkAccount_v3 (w : World) (db : DB) (total : Z) (a : AccountStatus)
    : SafetyCheckResult :=
  if negb (st_operatorCanClose a) then deny RNotAuthority
  else if isWhitelisted w db (st_pubkey a) then deny RWhitelisted
  else if st_executable a then deny RExecutable
  else if negb (st_exists a) then deny RAlreadyClosed
  else
    let idleCheck := checkIdleDuration_v3 w db (st_pubkey a) in
    if negb (allowed idleCheck) then idleCheck
    else
      let limitCheck := checkReclaimLimit w total (st_lamports a) in
      if negb (allowed limitCheck) then limitCheck
      else ok_check.

(** *** Whitelist and filtering (part_002, lines 515-549) *)

Definition set_cfgWhitelist (wl : gset string) (w : World) : World :=
  mkWorld (w_now w) wl (w_minIdleDays w) (w_maxReclaimSolPerRun w) (w_dryRun w)
    (w_treasuryAddress w) (w_operatorKey w) (w_operatorKeyError w)
    (w_getAccount w) (w_send w).

(** addToWhitelist: the store's table and the configuration's set. *)
Definition addToWhitelist (w : World) (db : DB) (pk : string) : World * DB :=
  (set_cfgWhitelist ({[pk]} ∪ w_cfgWhitelist w) w, Store.addToWhitelist pk db).

Definition removeFromWhitelist (w : World) (db : DB) (pk : string) : World * DB :=
  (set_cfgWhitelist (w_cfgWhitelist w ∖ {[pk]}) w, Store.removeFromWhitelist pk db).

(** `[...new Set(xs)]`: the elements of [xs] in the order of their first
    occurrence; [seen] is the set built so far. *)
Fixpoint setFromList (seen xs : list string) : list string :=
  match xs with
  | [] => seen
  | x :: rest =>
      if bool_decide (x ∈ seen) then setFromList seen rest
      else setFromList (seen ++ [x]) rest
  end.

(** getWhitelist: the store's list, then the configuration's, deduplicated. *)
Definition getWhitelist (w : World) (db : DB) : list string :=
  setFromList [] (Store.getWhitelist db ++ elements (w_cfgWhitelist w)).

(** filterSafeAccounts, for a given checkAccount: the allowed accounts,
    and the others with `check.reason || 'Unknown'`. *)
Fixpoint filterSafeAccounts (checkAccount : World -> DB -> Z -> AccountStatus -> SafetyCheckResult)
    (w : World) (db : DB) (total : Z) (accounts : list AccountStatus)
    : list AccountStatus * list (AccountStatus * Reason) :=
  match accounts with
  | [] => ([], [])
  | account :: rest =>
      let '(safe, filtered) := filterSafeAccounts checkAccount w db total rest in
      let check := checkAccount w db total account in
      if allowed check then (account :: safe, filtered)
      else (safe, (account, match reason check with Some r => r | None => RMsg "Unknown" end)
                    :: filtered)
  end.

End Safety.

(* ------------------------------------------------------------------ *)
(** ** Scanner (scanner.ts) *)

Definition TOKEN_PROGRAM_ID : string := "TokenkegQfeZyiNwAJbNbGKPFXCWuBvf9Ss623VQ5DA".
Definition SYSTEM_PROGRAM_ID : string := "11111111111111111111111111111111".

(** The fields of the SPL token account layout that the scanner reads
    (`AccountLayout.decode` of @solana/spl-token). *)
Record TokenLayout := mkTokenLayout {
  tl_mint : string;
  tl_owner : string;
  tl_amount : Z;
  tl_closeAuthorityOption : Z;
  tl_closeAuthority : string
}.

(** `AccountInfo<Buffer>` as returned by the RPC node. The raw data is
    represented by what the library decoder makes of it: [None] when
    `AccountLayout.decode(info.data)` throws. *)
Record AccountInfo := mkAccountInfo {
  ai_lamports : Z;
  ai_owner : string;
  ai_data : option TokenLayout;
  ai_dataLength : Z;
  ai_executable : bool
}.

(** createBatches (lines 293-299): consecutive slices of [maxPerBatch]. *)
Fixpoint createBatches_aux {A} (fuel maxPerBatch : nat) (l : list A) : list (list A) :=
  match fuel with
  | O => []
  | S f =>
      match l with
      | [] => []
      | _ => firstn maxPerBatch l :: createBatches_aux f maxPerBatch (skipn maxPerBatch l)
      end
  end.

Definition createBatches {A} (accounts : list A) (maxPerBatch : nat) : list (list A) :=
  createBatches_aux (length accounts) maxPerBatch accounts.

Module Scanner.

(** checkSafetyRules: the skip reason, or [None] when the account passes. *)
Definition checkSafetyRules (w : World) (db : DB) (pk : string) (info : AccountInfo)
    : option string :=
  if Store.isWhitelisted db pk || bool_decide (pk ∈ w_cfgWhitelist w)
  then Some "Account is whitelisted"
  else if ai_executable info then Some "Executable program account"
  else
    match Store.getAccount db pk with
    | Some a =>
        match sa_lastChecked a with
        | Some lc =>
            if Qltb (daysSince (w_now w) lc) (inject_Z (w_minIdleDays w))
            then Some ("Account active within last " ++ pretty (w_minIdleDays w) ++ " days")%string
            else None
        | None => None
        end
    | None => None
    end.

(** The initial status object of analyzeAccount for an existing account. *)
Definition initial_status (pk : string) (info : AccountInfo) : AccountStatus :=
  mkAccountStatus pk true (ai_lamports info) (Some (ai_owner info)) (ai_dataLength info)
    (ai_executable info) false false None None false.

(** The mutations `status.x = ...` of analyzeAccount, grouped. *)
Definition set_status (st : AccountStatus) (isTok isRecl : bool) (skip : option string)
    (ca : option string) (can : bool) : AccountStatus :=
  mkAccountStatus (st_pubkey st) (st_exists st) (st_lamports st) (st_owner st)
    (st_dataLength st) (st_executable st) isTok isRecl skip ca can.

(** The close authority the scanner derives from a decoded layout:
    the close-authority field when its option tag is 1, else the owner. *)
Definition decodedCloseAuthority (d : TokenLayout) : string :=
  if Z.eqb (tl_closeAuthorityOption d) 1 then tl_closeAuthority d else tl_owner d.

(** analyzeAccount (scanner.ts, lines 153-241): the returned status and
    the store after its writes. *)
Definition analyzeAccount (w : World) (db : DB) (pk : string) (info : option AccountInfo)
    : AccountStatus * DB :=
  let operatorPubkey := w_operatorKey w in
  match info with
  | None =>
      (mkAccountStatus pk false 0 None 0 false false false
         (Some "Account already closed") None false,
       Store.updateAccountStatus (w_now w) pk Closed (Some 0) db)
  | Some info =>
      let st := initial_status pk info in
      let isTok := String.eqb (ai_owner info) TOKEN_PROGRAM_ID in
      match checkSafetyRules w db pk info with
      | Some r => (set_status st isTok false (Some r) None false, db)
      | None =>
          if String.eqb (ai_owner info) SYSTEM_PROGRAM_ID then
            (set_status st isTok false
               (Some "System account - operator cannot close (requires account private key)")
               None false, db)
          else if isTok then
            match ai_data info with
            | None => (set_status st isTok false (Some "Failed to decode token account") None false, db)
            | Some decoded =>
                let closeAuthority := decodedCloseAuthority decoded in
                if bool_decide (operatorPubkey = Some closeAuthority) then
                  let db1 := Store.markAsReclaimable (w_now w) pk db in
                  (set_status st isTok true None (Some closeAuthority) true,
                   Store.updateAccountAuthority pk (Some closeAuthority) true db1)
                else
                  let db1 := Store.clearReclaimableState pk db in
                  (set_status st isTok false
                     (Some ("Operator is not close authority (authority: "
                            ++ substring 0 8 closeAuthority ++ "...)")%string)
                     (Some closeAuthority) false,
                   Store.updateAccountAuthority pk (Some closeAuthority) false db1)
            end
          else
            (set_status st isTok false (Some "Program-owned account (manual review needed)")
               None false, db)
      end
  end.

(** One iteration of the loop of scanBatch (lines 88-100): analyse, then
    persist status and balance. *)
Definition scanOne (w : World) (db : DB) (pk : string) (info : option AccountInfo)
    : AccountStatus * DB :=
  let '(st, db1) := analyzeAccount w db pk info in
  match info with
  | None => (st, Store.updateAccountStatus (w_now w) pk Closed (Some 0) db1)
  | Some i => (st, Store.updateAccountStatus (w_now w) pk Active (Some (ai_lamports i)) db1)
  end.

(** Successive scans of one account, each with the world of its run. *)
Fixpoint scanRepeated (pk : string) (scans : list (World * option AccountInfo)) (db : DB)
    : list AccountStatus * DB :=
  match scans with
  | [] => ([], db)
  | (w, info) :: rest =>
      let '(st, db1) := scanOne w db pk info in
      let '(sts, db2) := scanRepeated pk rest db1 in
      (st :: sts, db2)
  end.

(** The RPC node as the scanner sees it: the account at a key ([None]
    for null), and whether getMultipleAccountsInfo or getAccountInfo
    throws for the keys asked. *)
Record Rpc := mkRpc {
  rpc_account : string -> option AccountInfo;
  rpc_multiOk : list string -> bool;
  rpc_singleOk : string -> bool
}.

(** The status pushed when an account cannot be fetched. *)
Definition failedStatus (pk : string) : AccountStatus :=
  mkAccountStatus pk false 0 None 0 false false false
    (Some "Failed to fetch account info") None false.

(** scanSingleAccount (lines 129-150). *)
Definition scanSingleAccount (w : World) (rpc : Rpc) (db : DB) (pubkey : string)
    : AccountStatus * DB :=
  if negb (validPublicKey pubkey) then (failedStatus pubkey, db)
  else if negb (rpc_singleOk rpc pubkey) then (failedStatus pubkey, db)
  else analyzeAccount w db pubkey (rpc_account rpc pubkey).

(** A loop over keys threading the store. *)
Fixpoint scanEach (f : DB -> string -> AccountStatus * DB) (db : DB) (pks : list string)
    : list AccountStatus * DB :=
  match pks with
  | [] => ([], db)
  | pk :: rest =>
      let '(st, db1) := f db pk in
      let '(sts, db2) := scanEach f db1 rest in
      (st :: sts, db2)
  end.

(** scanBatch (lines 81-127): [None] when it throws, which only the
    `new PublicKey` of the first line, outside the try, can do. When
    getMultipleAccountsInfo throws, every account is scanned alone. *)
Definition scanBatch (w : World) (rpc : Rpc) (db : DB) (accounts : list SponsoredAccount)
    : option (list AccountStatus * DB) :=
  let pks := map sa_pubkey accounts in
  if negb (forallb validPublicKey pks) then None
  else if rpc_multiOk rpc pks then
    Some (scanEach (fun db pk => scanOne w db pk (rpc_account rpc pk)) db pks)
  else Some (scanEach (scanSingleAccount w rpc) db pks).

(** The message `accounts.map(a => new PublicKey(a.pubkey))` throws:
    that of the first key `new PublicKey` refuses. *)
Fixpoint batchKeyError (pks : list string) : string :=
  match pks with
  | [] => EmptyString
  | pk :: rest =>
      match publicKeyError pk with Some m => m | None => batchKeyError rest end
  end.

Record ScanResult := mkScanResult {
  sr_total : nat;
  sr_reclaimable : list AccountStatus;
  sr_skipped : list AccountStatus;
  sr_errors : list string
}.

(** The batch loop of scanAccounts (lines 50-74). *)
Fixpoint scanLoop (w : World) (rpc : Rpc) (batches : list (list SponsoredAccount))
    (result : ScanResult) (db : DB) : ScanResult * DB :=
  match batches with
  | [] => (result, db)
  | batch :: rest =>
      match scanBatch w rpc db batch with
      | Some (batchResults, db1) =>
          scanLoop w rpc rest
            (mkScanResult (sr_total result)
               (sr_reclaimable result ++ List.filter st_isReclaimable batchResults)
               (sr_skipped result ++ List.filter (fun st => negb (st_isReclaimable st)) batchResults)
               (sr_errors result)) db1
      | None =>
          scanLoop w rpc rest
            (mkScanResult (sr_total result) (sr_reclaimable result) (sr_skipped result)
               (sr_errors result ++ [("Batch error: " ++ batchKeyError (map sa_pubkey batch))%string]))
            db
      end
  end.

(** scanAccounts (lines 38-77) with BATCH_SIZE [batchSize]; [None] when
    the loop never ends (a zero batch size and some account). *)
Definition scanAccounts (w : World) (rpc : Rpc) (batchSize : nat) (db : DB)
    : option (ScanResult * DB) :=
  let accounts := Store.getActiveAccounts db in
  let result := mkScanResult (length accounts) [] [] [] in
  match batchSize, accounts with
  | O, _ :: _ => None
  | _, _ => Some (scanLoop w rpc (createBatches accounts batchSize) result db)
  end.

End Scanner.

(* ------------------------------------------------------------------ *)
(** ** ReclaimEngine (reclaim.ts) *)

Inductive LogStatus := LReclaimed | LSkipped | LFailed.

(** [ReclaimLogEntry] kept by `logger.addReclaimEntry`. *)
Record ReclaimLogEntry := mkLogEntry {
  le_pubkey : string;
  le_status : LogStatus;
  le_lamports : Z;
  le_reason : option Reason;
  le_txSignature : option string;
  le_timestamp : Z
}.

Record ReclaimResult := mkReclaimResult {
  rr_pubkey : string;
  rr_success : bool;
  rr_lamportsReclaimed : Z;
  rr_txSignature : option string;
  rr_error : option Reason
}.

Record BatchReclaimResult := mkBatchResult {
  successful : list ReclaimResult;
  failed : list ReclaimResult;
  totalLamportsReclaimed : Z
}.

Definition empty_result : BatchReclaimResult := mkBatchResult [] [] 0.

(** The mutable state a run touches: the store, the safety counter
    `totalReclaimedThisRun`, the logger's entries, the transactions
    handed to `sendAndConfirmTransaction` and the sleeps of the retry
    loop. *)
Record Run := mkRun {
  run_db : DB;
  run_total : Z;
  run_log : list ReclaimLogEntry;
  run_sent : list (list TransactionInstruction);
  run_sleeps : list Z
}.

Definition set_db (d : DB) (s : Run) : Run :=
  mkRun d (run_total s) (run_log s) (run_sent s) (run_sleeps s).
Definition add_log (l : list ReclaimLogEntry) (s : Run) : Run :=
  mkRun (run_db s) (run_total s) (run_log s ++ l) (run_sent s) (run_sleeps s).
(** safety.recordReclaim *)
Definition recordReclaim (lam : Z) (s : Run) : Run :=
  mkRun (run_db s) (run_total s + lam) (run_log s) (run_sent s) (run_sleeps s).
Definition add_sent (ixs : list TransactionInstruction) (s : Run) : Run :=
  mkRun (run_db s) (run_total s) (run_log s) (run_sent s ++ [ixs]) (run_sleeps s).
(** this.delay(ms) *)
Definition delay (ms : Z) (s : Run) : Run :=
  mkRun (run_db s) (run_total s) (run_log s) (run_sent s) (run_sleeps s ++ [ms]).

Definition MAX_RETRIES : nat := 3.
Definition RETRY_DELAY : Z := 1000.
Definition MAX_INSTRUCTIONS : nat := 10.

(** `x || null` on an optional string: the empty string is falsy. *)
Definition or_null (x : string) : option string :=
  if String.eqb x "" then None else Some x.

Inductive TxResult := TxOk (signature : string) | TxErr (error : string).

(** executeWithRetry (lines 261-290): attempt [attempt] of [MAX_RETRIES];
    [fuel] counts the attempts left, so the loop runs attempts
    1 .. MAX_RETRIES. *)
Fixpoint retry_loop (w : World) (ixs : list TransactionInstruction) (attempt fuel : nat)
    (s : Run) : TxResult * Run :=
  match fuel with
  | O => (TxErr "Max retries exceeded", s)
  | S fuel' =>
      let outcome := w_send w (length (run_sent s)) ixs in
      let s1 := add_sent ixs s in
      match outcome with
      | inl signature => (TxOk signature, s1)
      | inr errMsg =>
          if Nat.ltb attempt MAX_RETRIES then
            retry_loop w ixs (S attempt) fuel'
              (delay (RETRY_DELAY * 2 ^ (Z.of_nat attempt - 1)) s1)
          else (TxErr errMsg, s1)
      end
  end.

Definition executeWithRetry (w : World) (ixs : list TransactionInstruction) (s : Run)
    : TxResult * Run :=
  retry_loop w ixs 1 MAX_RETRIES s.

(** createCloseInstruction (lines 229-258): [inl msg] when it throws,
    [inr None] when it returns null. *)
Definition createCloseInstruction (w : World) (a : AccountStatus) (authority destination : string)
    : string + option TransactionInstruction :=
  let accountPubkey := st_pubkey a in
  match publicKeyError accountPubkey with
  | Some msg => inl msg
  | None =>
      if st_isTokenAccount a then
        match w_getAccount w accountPubkey with
        | TokenFound amount =>
            if Z.ltb 0 amount then inr None
            else inr (Some (CloseAccountIx accountPubkey destination authority))
        | TokenNotFound => inr None
        | TokenError msg => inl msg
        end
      else if bool_decide (st_owner a = Some SYSTEM_PROGRAM_ID) then
        inr (Some (TransferIx accountPubkey destination (st_lamports a)))
      else inr None
  end.

Definition failRec (a : AccountStatus) (err : option Reason) : ReclaimResult :=
  mkReclaimResult (st_pubkey a) false 0 None err.

Section Engine.

(** The SafetyManager that reclaim.ts imports: its checkAccount, reading
    the store and the run counter. *)
Variable checkAccount : World -> DB -> Z -> AccountStatus -> SafetyCheckResult.

(** The first loop of processBatch (lines 127-163): the failure records,
    the accounts put in the transaction, their instructions, and the log
    entries, each in the order the loop pushes them. *)
Fixpoint buildLoop (w : World) (db : DB) (total : Z) (operator treasury : string)
    (accounts : list AccountStatus)
    : list ReclaimResult * list AccountStatus * list TransactionInstruction
      * list ReclaimLogEntry :=
  match accounts with
  | [] => ([], [], [], [])
  | a :: rest =>
      let '(fs, inTx, ixs, logs) := buildLoop w db total operator treasury rest in
      let safetyCheck := checkAccount w db total a in
      if negb (allowed safetyCheck) then
        (failRec a (reason safetyCheck) :: fs, inTx, ixs,
         mkLogEntry (st_pubkey a) LSkipped 0 (reason safetyCheck) None (w_now w) :: logs)
      else
        match createCloseInstruction w a operator treasury with
        | inr (Some ix) => (fs, a :: inTx, ix :: ixs, logs)
        | inr None =>
            (failRec a (Some (RMsg "Could not create close instruction")) :: fs, inTx, ixs, logs)
        | inl errMsg => (failRec a (Some (RMsg errMsg)) :: fs, inTx, ixs, logs)
        end
  end.

Definition dryRec (a : AccountStatus) : ReclaimResult :=
  mkReclaimResult (st_pubkey a) true (st_lamports a) None None.

Definition okRec (signature : string) (a : AccountStatus) : ReclaimResult :=
  mkReclaimResult (st_pubkey a) true (st_lamports a) (Some signature) None.

Definition txFailRec (error : string) (a : AccountStatus) : ReclaimResult :=
  mkReclaimResult (st_pubkey a) false 0 None (Some (RMsg error)).

Definition sum_lamports (l : list AccountStatus) : Z :=
  fold_right (fun a t => st_lamports a + t) 0 l.

(** The success loop (lines 186-205), one account after the other. *)
Fixpoint commitSuccess (w : World) (signature : string) (accs : list AccountStatus)
    (s : Run) : Run :=
  match accs with
  | [] => s
  | acc :: rest =>
      let s1 := recordReclaim (st_lamports acc) s in
      let d1 := Store.updateAccountStatus (w_now w) (st_pubkey acc) Reclaimed None (run_db s1) in
      let d2 := Store.addReclaimHistory (w_now w) (st_pubkey acc) (st_lamports acc) HSuccess
                  None (or_null signature) d1 in
      let s2 := add_log [mkLogEntry (st_pubkey acc) LReclaimed (st_lamports acc) None
                           (Some signature) (w_now w)] (set_db d2 s1) in
      commitSuccess w signature rest s2
  end.

(** The failure loop (lines 207-222). *)
Fixpoint commitFailure (w : World) (error : string) (accs : list AccountStatus)
    (s : Run) : Run :=
  match accs with
  | [] => s
  | acc :: rest =>
      let reason_ := if String.eqb error "" then "Transaction failed" else error in
      let d1 := Store.addReclaimHistory (w_now w) (st_pubkey acc) 0 HFailed
                  (Some reason_) None (run_db s) in
      let s1 := add_log [mkLogEntry (st_pubkey acc) LFailed 0 (Some (RMsg error)) None (w_now w)]
                  (set_db d1 s) in
      commitFailure w error rest s1
  end.

(** processBatch (lines 116-226): [inl msg] when it throws. *)
Definition processBatch (w : World) (s : Run) (accounts : list AccountStatus)
    (treasury : string) (dryRun : bool) : (string + BatchReclaimResult) * Run :=
  match w_operatorKey w with
  | None => (inl (w_operatorKeyError w), s)
  | Some operator =>
      let '(fs, accountsInTx, instructions, logs) :=
        buildLoop w (run_db s) (run_total s) operator treasury accounts in
      let s1 := add_log logs s in
      match instructions with
      | [] => (inr (mkBatchResult [] fs 0), s1)
      | _ :: _ =>
          if dryRun then
            (inr (mkBatchResult (map dryRec accountsInTx) fs (sum_lamports accountsInTx)),
             add_log (map (fun acc => mkLogEntry (st_pubkey acc) LReclaimed (st_lamports acc)
                                        None (Some "DRY_RUN") (w_now w)) accountsInTx) s1)
          else
            let '(txResult, s2) := executeWithRetry w instructions s1 in
            match txResult with
            | TxOk signature =>
                (inr (mkBatchResult (map (okRec signature) accountsInTx) fs
                        (sum_lamports accountsInTx)),
                 commitSuccess w signature accountsInTx s2)
            | TxErr error =>
                (inr (mkBatchResult [] (fs ++ map (txFailRec error) accountsInTx) 0),
                 commitFailure w error accountsInTx s2)
            end
      end
  end.

(** The batch loop of reclaimAccounts (lines 81-110). *)
Fixpoint batchLoop (w : World) (treasury : string) (batches : list (list AccountStatus))
    (result : BatchReclaimResult) (s : Run) : BatchReclaimResult * Run :=
  match batches with
  | [] => (result, s)
  | batch :: rest =>
      let '(r, s1) := processBatch w s batch treasury (w_dryRun w) in
      let result1 :=
        match r with
        | inr br =>
            mkBatchResult (successful result ++ successful br) (failed result ++ failed br)
              (totalLamportsReclaimed result + totalLamportsReclaimed br)
        | inl errorMsg =>
            mkBatchResult (successful result)
              (failed result ++ map (fun a => failRec a (Some (RMsg errorMsg))) batch)
              (totalLamportsReclaimed result)
        end in
      if PrimFloat.leb (Safety.getRemainingBudget w (run_total s1)) (toNumber 0)
      then (result1, s1)
      else batchLoop w treasury rest result1 s1
  end.

(** reclaimAccounts (lines 55-113): [inl msg] when it throws. *)
Definition reclaimAccounts (w : World) (s : Run) (accounts : list AccountStatus)
    : (string + BatchReclaimResult) * Run :=
  match accounts with
  | [] => (inr empty_result, s)
  | _ :: _ =>
      let treasuryAddr := w_treasuryAddress w in
      if String.eqb treasuryAddr "" then (inl "Treasury address not configured", s)
      else
        match publicKeyError treasuryAddr with
        | Some msg => (inl msg, s)
        | None =>
            let batches := createBatches accounts MAX_INSTRUCTIONS in
            let '(r, s1) := batchLoop w treasuryAddr batches empty_result s in
            (inr r, s1)
        end
  end.

(** reclaimSingle (lines 302-318): the account status it fabricates. *)
Definition singleStatus (pubkey : string) : AccountStatus :=
  mkAccountStatus pubkey true 0 None 0 false false true None None false.

Definition reclaimSingle (w : World) (s : Run) (pubkey : string)
    : (string + ReclaimResult) * Run :=
  let '(r, s1) := reclaimAccounts w s [singleStatus pubkey] in
  match r with
  | inl e => (inl e, s1)
  | inr result =>
      match successful result, failed result with
      | x :: _, _ => (inr x, s1)
      | [], x :: _ => (inr x, s1)
      | [], [] => (inr (mkReclaimResult pubkey false 0 None (Some (RMsg "No result"))), s1)
      end
  end.

End Engine.

(* ------------------------------------------------------------------ *)
(** ** KoraParser (kora.ts): the imports that feed the store *)

Module Kora.

(** An element of the parsed JSON array; [None] for a missing field. *)
Record ImportedAccount := mkImported {
  ia_pubkey : option string;
  ia_programOwner : option string;
  ia_sponsorSignature : option string;
  ia_createdAt : option Z
}.

(** `x || null` on an optional string. *)
Definition or_null_opt (x : option string) : option string :=
  match x with Some v => or_null v | None => None end.

(** The object importFromFile pushes (lines 60-68): reclaimableSince,
    closeAuthority and operatorCanClose are not set. *)
Definition importedRow (now : Z) (pk : string) (item : ImportedAccount) : Store.AccountInput :=
  Store.mkAccountInput pk (or_null_opt (ia_programOwner item)) (or_null_opt (ia_sponsorSignature item))
    0 (match ia_createdAt item with Some t => t | None => now end) None Active
    Store.Undefined Store.Undefined Store.Undefined.

(** The loop of importFromFile (lines 47-70): entries without a pubkey or
    with an invalid one are skipped. *)
Fixpoint importRows (w : World) (data : list ImportedAccount) : list Store.AccountInput :=
  match data with
  | [] => []
  | item :: rest =>
      match ia_pubkey item with
      | None => importRows w rest
      | Some pk =>
          if String.eqb pk "" then importRows w rest
          else if validPublicKey pk then importedRow (w_now w) pk item :: importRows w rest
          else importRows w rest
      end
  end.

(** importFromFile (lines 24-79), from the parsed array on: [inl msg]
    when it throws, else the number imported; and the store. *)
Definition importFromFile (w : World) (data : list ImportedAccount) (db : DB)
    : (string + nat) * DB :=
  let accounts := importRows w data in
  if Nat.ltb 0 (length accounts) then
    match Store.addAccountsBatchInput accounts db with
    | (Some e, db1) => (inl e, db1)
    | (None, db1) => (inr (length accounts), db1)
    end
  else (inr (length accounts), db).

(** addAccount (lines 220-239): [inl msg] when it throws. *)
Definition addAccount (w : World) (pubkey : string) (programOwner sponsorSig : option string)
    (db : DB) : string + DB :=
  if negb (validPublicKey pubkey) then inl ("Invalid pubkey format: " ++ pubkey)%string
  else Store.insertInput
         (Store.mkAccountInput pubkey (or_null_opt programOwner) (or_null_opt sponsorSig)
            0 (w_now w) None Active Store.Undefined Store.Undefined Store.Undefined) db.

End Kora.

(* ------------------------------------------------------------------ *)
(** ** Dashboard (database.ts, lines 449-675) *)

Module Dashboard.

(** getAuthorityBreakdown: the active accounts, split by operatorCanClose. *)
Definition getAuthorityBreakdown (db : DB) : nat * nat :=
  fold_left (fun '(canClose, cannotClose) acc =>
               if Store.state_eqb (sa_status acc) Active then
                 if sa_operatorCanClose acc then (S canClose, cannotClose)
                 else (canClose, S cannotClose)
               else (canClose, cannotClose))
    (Store.getAllAccounts db) (0%nat, 0%nat).

End Dashboard.


(* ------------------------------------------------------------------ *)
(** ** Predicates of the properties *)

Definition pays_treasury (w : World) (ix : TransactionInstruction) : Prop :=
  match ix with
  | CloseAccountIx _ destination authority =>
      destination = w_treasuryAddress w /\ w_operatorKey w = Some authority
  | TransferIx _ toPubkey _ => toPubkey = w_treasuryAddress w
  end.

Definition reclaimable_ok (w : World) (st : AccountStatus) : Prop :=
  st_isTokenAccount st = true /\ st_operatorCanClose st = true /\
  st_skipReason st = None /\ st_closeAuthority st = w_operatorKey w /\ st_exists st = true.

Definition scan_out_ok (w : World) (pk : string) (st : AccountStatus) : Prop :=
  st_pubkey st = pk /\ (st_isReclaimable st = true -> reclaimable_ok w st).

Definition scan_fields (a : SponsoredAccount) : option Z * Z * AccountState :=
  (sa_lastChecked a, sa_lamports a, sa_status a).

Definition row_frame (pk : string) (db db' : DB) : Prop :=
  reclaim_history db' = reclaim_history db /\ whitelist db' = whitelist db /\
  (forall k, k <> pk -> sponsored_accounts db' !! k = sponsored_accounts db !! k) /\
  (is_Some (sponsored_accounts db' !! pk) <-> is_Some (sponsored_accounts db !! pk)).

(** The errors scanAccounts can collect: `Batch error: ${message}` for
    a message of `new PublicKey`. *)
Definition key_batch_error (e : string) : Prop :=
  e = "Batch error: Non-base58 character" \/ e = "Batch error: Invalid public key input".

Definition import_ok (pk : string) : bool :=
  negb (String.eqb pk "") && validPublicKey pk.

(** An entry the loop of importFromFile pushes. *)
Definition importable (item : Kora.ImportedAccount) : bool :=
  match Kora.ia_pubkey item with Some pk => import_ok pk | None => false end.


(* ------------------------------------------------------------------ *)
(** ** Concrete scenarios *)

Fixpoint fill (n : nat) : string :=
  match n with O => EmptyString | S k => String "x"%char (fill k) end.

(** A 43-character base58 key that spells [tag] and is filled up with
    'x': the tags below start with a digit of value 9 or more, so the
    key decodes to 32 bytes. *)
Definition demoKey (tag : string) : string := (tag ++ fill (43 - String.length tag))%string.

Module Scenarios.

Definition now0 : Z := 1700000000000.
Definition day : Z := 86400000.
Definition SOL : Z := 1000000000.

(** A devnet configuration: MIN_IDLE_DAYS=7, MAX_RECLAIM_SOL_PER_RUN=10,
    a valid treasury, an operator key, every token account empty and every
    submission confirmed. *)
Definition world (dry : bool) (opKey : option string) (cfgWl : gset string) : World :=
  mkWorld now0 cfgWl 7 (toNumber 10) dry (demoKey "Treas111") opKey
    "Operator wallet not found at: ./wallet/operator.json"
    (fun _ => TokenFound 0) (fun n _ => inl "sig5xyz").

Definition w_live : World := world false (Some "Oper111") ∅.

Definition db_empty : DB := mkDB ∅ [] ∅.
Definition run0 (db : DB) : Run := mkRun db 0 [] [] [].

Definition row (pk : string) (lastChecked rs : option Z) (can : bool) : SponsoredAccount :=
  mkSponsoredAccount pk None None 2039280 (now0 - 30 * day) lastChecked Active rs
    (Some "Oper111") can.

Definition db_with (a : SponsoredAccount) : DB :=
  mkDB {[ sa_pubkey a := a ]} [] ∅.

(** A status the scanner could hand over: an existing empty token account. *)
Definition tokenStatus (pk : string) (lamports : Z) (can : bool) : AccountStatus :=
  mkAccountStatus pk true lamports (Some TOKEN_PROGRAM_ID) 165 false true true None
    (Some "Oper111") can.

(** One batch holding a single 12 SOL account, against the 10 SOL cap. *)
Definition acct12 : AccountStatus := tokenStatus (demoKey "Acct3") (12 * SOL) true.

Definition c3_batch_run : (string + BatchReclaimResult) * Run :=
  Eval vm_compute in
  processBatch Safety.checkAccount_v2 w_live (run0 db_empty) [acct12] (demoKey "Treas111") false.

Definition c3_br : BatchReclaimResult :=
  match fst c3_batch_run with inr br => br | inl _ => empty_result end.

(** Eleven 1 SOL token accounts Ka .. Kk: two batches of 10 and 1. *)
Definition elevenAccounts : list AccountStatus :=
  map (fun n => tokenStatus (demoKey (String "K"%char (String (ascii_of_nat (96 + n)) EmptyString))) SOL true)
    (seq 1 11).

Definition c4_run : (string + BatchReclaimResult) * Run :=
  Eval vm_compute in
  reclaimAccounts Safety.checkAccount_v2 w_live (run0 db_empty) elevenAccounts.

Definition c4_br : BatchReclaimResult :=
  match fst c4_run with inr br => br | inl _ => empty_result end.

(** A token account whose close authority is the operator, and the same
    configuration with MIN_IDLE_DAYS=0 so that back-to-back scans analyse it. *)
Definition opTokenInfo : AccountInfo :=
  mkAccountInfo 2039280 TOKEN_PROGRAM_ID
    (Some (mkTokenLayout "Mint111" "User111" 0 1 "Oper111")) 165 false.

Definition w_idle0 : World :=
  mkWorld now0 ∅ 0 (toNumber 10) false (demoKey "Treas111") (Some "Oper111") ""
    (fun _ => TokenFound 0) (fun n _ => inl "sig5xyz").

Definition row5 : SponsoredAccount := row (demoKey "Acct1") None (Some (now0 - 3 * day)) true.

(** A node that fails the first two submissions of the run. *)
Definition w_flaky : World :=
  mkWorld now0 ∅ 7 (toNumber 10) false (demoKey "Treas111") (Some "Oper111") ""
    (fun _ => TokenFound 0)
    (fun n _ => if Nat.ltb n 2 then inr "Blockhash not found" else inl "sig3rd").

Definition c7_batch : list AccountStatus :=
  [tokenStatus (demoKey "Acct1") 2039280 true; tokenStatus (demoKey "Acct2") 2039280 true].

Definition c7_ixs : list TransactionInstruction :=
  [CloseAccountIx (demoKey "Acct1") (demoKey "Treas111") "Oper111"; CloseAccountIx (demoKey "Acct2") (demoKey "Treas111") "Oper111"].

(** The devnet configuration with DRY_RUN=true. *)
Definition w_dry : World := world true (Some "Oper111") ∅.

Definition c9_run : (string + BatchReclaimResult) * Run :=
  Eval vm_compute in
  reclaimAccounts Safety.checkAccount_v2 w_dry (run0 db_empty) c7_batch.

(** The configuration with no operator keypair on disk, and the one
    with no treasury address. *)
Definition w_nokey : World := world false None ∅.

(** MAX_RECLAIM_SOL_PER_RUN=7.7: parseFloat gives the double nearest
    7.7, which is 77 / 10 rounded. *)
Definition w_cap77 : World :=
  mkWorld now0 ∅ 7 (PrimFloat.div (toNumber 77) (toNumber 10)) false (demoKey "Treas111")
    (Some "Oper111") "Operator wallet not found at: ./wallet/operator.json"
    (fun _ => TokenFound 0) (fun n _ => inl "sig5xyz").

Definition w_notreasury : World :=
  mkWorld now0 ∅ 7 (toNumber 10) false "" (Some "Oper111")
    "Operator wallet not found at: ./wallet/operator.json"
    (fun _ => TokenFound 0) (fun n _ => inl "sig5xyz").

End Scenarios.

(** Inputs for the properties: a store with two tracked active accounts,
    Acct1 (a token account the operator can close) and Acct2 (gone from
    the chain), and RPC nodes whose batch call works or throws. *)
Module ExtraScenarios.
Import Scenarios.

Definition db2 : DB :=
  mkDB (<[ (demoKey "Acct2") := row (demoKey "Acct2") None None false ]> {[ (demoKey "Acct1") := row (demoKey "Acct1") None None true ]})
    [] ∅.

Definition rpc_ok : Scanner.Rpc :=
  Scanner.mkRpc (fun pk => if String.eqb pk (demoKey "Acct1") then Some opTokenInfo else None)
    (fun _ => true) (fun _ => true).

Definition rpc_fallback : Scanner.Rpc :=
  Scanner.mkRpc (fun pk => if String.eqb pk (demoKey "Acct1") then Some opTokenInfo else None)
    (fun _ => false) (fun _ => true).

Definition scan_run : option (Scanner.ScanResult * DB) :=
  Eval vm_compute in Scanner.scanAccounts w_live rpc_ok 100 db2.

Definition scan_result : Scanner.ScanResult :=
  match scan_run with Some (r, _) => r | None => Scanner.mkScanResult 0 [] [] [] end.

Definition scan_db : DB :=
  match scan_run with Some (_, d) => d | None => db2 end.

Definition batch_ok : option (list AccountStatus * DB) :=
  Eval vm_compute in Scanner.scanBatch w_live rpc_ok db2 (Store.getActiveAccounts db2).

Definition batch_fallback : option (list AccountStatus * DB) :=
  Eval vm_compute in Scanner.scanBatch w_live rpc_fallback db2 (Store.getActiveAccounts db2).

Definition opt_sts (o : option (list AccountStatus * DB)) : list AccountStatus :=
  match o with Some (l, _) => l | None => [] end.

Definition opt_db (o : option (list AccountStatus * DB)) : DB :=
  match o with Some (_, d) => d | None => db2 end.

Definition batch_run : (string + BatchReclaimResult) * Run :=
  Eval vm_compute in
  processBatch Safety.checkAccount_v2 w_live (run0 db2) c7_batch (demoKey "Treas111") false.

Definition batch_br : BatchReclaimResult :=
  match fst batch_run with inr br => br | inl _ => empty_result end.

End ExtraScenarios.

(* ================================================================== *)
(** * Properties *)

(** ** Arithmetic of the day and budget comparisons *)

Lemma Qltb_false_iff (x y : Q) : Qltb x y = false <-> Qle y x.
Proof.
  unfold Qltb. rewrite negb_false_iff. apply Qle_bool_iff.
Qed.

Lemma days_not_below (now t m : Z) :
  Qltb (daysSince now t) (inject_Z m) = false <-> m * 86400000 <= now - t.
Proof.
  rewrite Qltb_false_iff. unfold Qle, daysSince, inject_Z, ms_per_day; simpl. lia.
Qed.

(** ** The SafetyManager of part_003 *)

(** The part_003 gate denies every account the operator cannot close,
    whatever the store, the whitelists and the run counter say. *)
Lemma checkAccount_v3_authority_first (w : World) (db : DB) (total : Z) (a : AccountStatus) :
  st_operatorCanClose a = false ->
  Safety.checkAccount_v3 w db total a = deny RNotAuthority.
Proof. intros H. unfold Safety.checkAccount_v3. rewrite H. reflexivity. Qed.

(** The part_003 idle check: a tracked account passes iff its
    [reclaimableSince] is set and at least [minIdleDays] whole days of
    milliseconds lie between it and now (inclusive). *)
Lemma checkIdleDuration_v3_spec (w : World) (db : DB) (pk : string) (a : SponsoredAccount) :
  Store.getAccount db pk = Some a ->
  allowed (Safety.checkIdleDuration_v3 w db pk) = true <->
  exists rs, sa_reclaimableSince a = Some rs /\ w_minIdleDays w * 86400000 <= w_now w - rs.
Proof.
  intros H. unfold Safety.checkIdleDuration_v3. rewrite H.
  destruct (sa_reclaimableSince a) as [rs|] eqn:E.
  - destruct (Qltb (daysSince (w_now w) rs) (inject_Z (w_minIdleDays w))) eqn:L.
    + simpl. split; [discriminate|]. intros [rs' [Hr Hle]]. injection Hr as <-.
      assert (Qltb (daysSince (w_now w) rs) (inject_Z (w_minIdleDays w)) = false)
        by (apply days_not_below; lia). congruence.
    + simpl. split; [|reflexivity]. intros _. exists rs. split; [reflexivity|].
      apply days_not_below. exact L.
  - simpl. split; [discriminate|]. intros [rs' [Hr _]]. discriminate.
Qed.

(** C1 (SafetyGate authority invariant). The SafetyManager.checkAccount
    of part_002 (lines 442-467) never reads [operatorCanClose]: an
    existing, non-executable, non-whitelisted account the operator cannot
    close, unknown to the store and within budget, is allowed. *)
Lemma C1_checkAccount_v2_allows_without_authority :
  st_operatorCanClose (Scenarios.tokenStatus (demoKey "Acct1") 2039280 false) = false /\
  Safety.checkAccount_v2 Scenarios.w_live Scenarios.db_empty 0
    (Scenarios.tokenStatus (demoKey "Acct1") 2039280 false) = ok_check.
Proof. split; vm_compute; reflexivity. Qed.

(** C2 (SafetyGate idle check). The checkIdleDuration of part_002
    (lines 470-486) measures idleness from [lastChecked], not
    [reclaimableSince]: with minIdleDays = 7, an account reclaimable
    since exactly 7 days but scanned one hour ago is denied, and an
    account with [reclaimableSince = null] and never checked is allowed. *)
Lemma C2_checkIdleDuration_v2_reads_lastChecked :
  let r := Scenarios.row (demoKey "Acct1") (Some (Scenarios.now0 - 3600000))
             (Some (Scenarios.now0 - 7 * Scenarios.day)) true in
  let r' := Scenarios.row (demoKey "Acct1") None None true in
  allowed (Safety.checkIdleDuration_v2 Scenarios.w_live (Scenarios.db_with r) (demoKey "Acct1")) = false /\
  allowed (Safety.checkAccount_v2 Scenarios.w_live (Scenarios.db_with r) 0
             (Scenarios.tokenStatus (demoKey "Acct1") 2039280 true)) = false /\
  allowed (Safety.checkIdleDuration_v2 Scenarios.w_live (Scenarios.db_with r') (demoKey "Acct1")) = true.
Proof. vm_compute. repeat split. Qed.

(** ** Frame lemmas of the engine's state steps *)

Lemma retry_loop_frame (w : World) ixs attempt fuel s :
  let s' := snd (retry_loop w ixs attempt fuel s) in
  run_db s' = run_db s /\ run_total s' = run_total s /\ run_log s' = run_log s.
Proof.
  revert attempt s. induction fuel as [|fuel IH]; intros attempt s; simpl; [auto|].
  destruct (w_send w (length (run_sent s)) ixs) as [sig|err]; simpl; [auto|].
  destruct (Nat.ltb attempt MAX_RETRIES); simpl; [|auto].
  destruct (IH (S attempt) (delay (RETRY_DELAY * 2 ^ (Z.of_nat attempt - 1)) (add_sent ixs s)))
    as (H1 & H2 & H3).
  simpl in *. auto.
Qed.

Lemma executeWithRetry_frame (w : World) ixs s tx s' :
  executeWithRetry w ixs s = (tx, s') ->
  run_db s' = run_db s /\ run_total s' = run_total s /\ run_log s' = run_log s.
Proof.
  intros H. pose proof (retry_loop_frame w ixs 1 MAX_RETRIES s) as F.
  unfold executeWithRetry in H. rewrite H in F. exact F.
Qed.

Lemma commitSuccess_total (w : World) sig accs s :
  run_total (commitSuccess w sig accs s) = run_total s + sum_lamports accs /\
  exists l, run_log (commitSuccess w sig accs s) = run_log s ++ l.
Proof.
  revert s. induction accs as [|a rest IH]; intros s; simpl.
  - split; [lia|]. exists []. by rewrite app_nil_r.
  - match goal with |- context [commitSuccess w sig rest ?s1] => destruct (IH s1) as [Ht [l Hl]] end.
    rewrite Ht, Hl. simpl. split; [lia|].
    eexists. by rewrite <- app_assoc.
Qed.

Lemma commitFailure_total (w : World) err accs s :
  run_total (commitFailure w err accs s) = run_total s /\
  exists l, run_log (commitFailure w err accs s) = run_log s ++ l.
Proof.
  revert s. induction accs as [|a rest IH]; intros s; simpl.
  - split; [reflexivity|]. exists []. by rewrite app_nil_r.
  - match goal with |- context [commitFailure w err rest ?s1] => destruct (IH s1) as [Ht [l Hl]] end.
    rewrite Ht, Hl. simpl. split; [reflexivity|].
    eexists. by rewrite <- app_assoc.
Qed.

Lemma sum_okRec sig accs :
  fold_right (fun x t => rr_lamportsReclaimed x + t) 0 (map (okRec sig) accs) = sum_lamports accs.
Proof. induction accs as [|a l IH]; simpl; [reflexivity|]. rewrite IH. reflexivity. Qed.


(** An account the gate denies gets its failure record, with the gate's
    reason, and a 'skipped' log entry. *)
Lemma buildLoop_denied chk (w : World) db total op treasury accounts fs inTx ixs logs a :
  buildLoop chk w db total op treasury accounts = (fs, inTx, ixs, logs) ->
  In a accounts -> allowed (chk w db total a) = false ->
  In (failRec a (reason (chk w db total a))) fs /\
  In (mkLogEntry (st_pubkey a) LSkipped 0 (reason (chk w db total a)) None (w_now w)) logs.
Proof.
  revert fs inTx ixs logs. induction accounts as [|b rest IH]; intros fs inTx ixs logs H Hin Hd;
    simpl in H; [contradiction|].
  destruct (buildLoop chk w db total op treasury rest) as [[[fs0 inTx0] ixs0] logs0] eqn:E.
  destruct Hin as [<-|Hin].
  - rewrite Hd in H. simpl in H. injection H as <- <- <- <-. simpl. auto.
  - destruct (IH _ _ _ _ eq_refl Hin Hd) as [H1 H2].
    destruct (negb (allowed (chk w db total b))).
    + injection H as <- <- <- <-. simpl. auto.
    + destruct (createCloseInstruction w b op treasury) as [msg|[ix|]];
        injection H as <- <- <- <-; simpl; auto.
Qed.

Definition sum_reclaimed (l : list ReclaimResult) : Z :=
  fold_right (fun x t => rr_lamportsReclaimed x + t) 0 l.

(** processBatch advances the run counter only after a confirmed
    transaction, by the lamports of the accounts it reports reclaimed. *)
Lemma processBatch_total chk (w : World) s batch treasury dryRun r s' :
  processBatch chk w s batch treasury dryRun = (r, s') ->
  run_total s' = run_total s +
    match r with
    | inr br => if dryRun then 0 else sum_reclaimed (successful br)
    | inl _ => 0
    end /\
  exists l, run_log s' = run_log s ++ l.
Proof.
  unfold processBatch. intros H.
  destruct (w_operatorKey w) as [op|]; [|injection H as <- <-; split; [lia|exists []; by rewrite app_nil_r]].
  destruct (buildLoop chk w (run_db s) (run_total s) op treasury batch) as [[[fs inTx] ixs] logs].
  destruct ixs as [|ix ixs].
  { injection H as <- <-. destruct dryRun; simpl; (split; [lia|eexists; reflexivity]). }
  destruct dryRun.
  { injection H as <- <-. simpl. split; [lia|]. eexists. by rewrite <- app_assoc. }
  destruct (executeWithRetry w (ix :: ixs) (add_log logs s)) as [tx s2] eqn:X.
  apply executeWithRetry_frame in X as (_ & Ht & Hl).
  destruct tx as [sig|err]; injection H as <- <-.
  - destruct (commitSuccess_total w sig inTx s2) as [Ht2 [l Hl2]].
    simpl. unfold sum_reclaimed. rewrite sum_okRec, Ht2, Ht, Hl2, Hl. simpl.
    split; [lia|]. eexists. by rewrite <- app_assoc.
  - destruct (commitFailure_total w err inTx s2) as [Ht2 [l Hl2]].
    simpl. rewrite Ht2, Ht, Hl2, Hl. simpl. split; [lia|]. eexists. by rewrite <- app_assoc.
Qed.

Lemma processBatch_denied chk (w : World) s batch treasury dryRun br s' a :
  processBatch chk w s batch treasury dryRun = (inr br, s') ->
  In a batch -> allowed (chk w (run_db s) (run_total s) a) = false ->
  In (failRec a (reason (chk w (run_db s) (run_total s) a))) (failed br) /\
  In (mkLogEntry (st_pubkey a) LSkipped 0 (reason (chk w (run_db s) (run_total s) a)) None (w_now w))
     (run_log s').
Proof.
  intros H Hin Hd.
  destruct (processBatch_total chk w s batch treasury dryRun (inr br) s' H) as [_ [l Hl]].
  unfold processBatch in H.
  destruct (w_operatorKey w) as [op|]; [|discriminate].
  destruct (buildLoop chk w (run_db s) (run_total s) op treasury batch) as [[[fs inTx] ixs] logs] eqn:B.
  destruct (buildLoop_denied chk w _ _ op treasury batch fs inTx ixs logs a B Hin Hd) as [H1 H2].
  assert (Hlog : In (mkLogEntry (st_pubkey a) LSkipped 0 (reason (chk w (run_db s) (run_total s) a))
                     None (w_now w)) (run_log (add_log logs s))).
  { simpl. apply in_or_app. auto. }
  destruct ixs as [|ix ixs].
  { injection H as <- <-. simpl. auto. }
  destruct dryRun.
  { injection H as <- <-. simpl. split; [exact H1|]. apply in_or_app. left. exact Hlog. }
  destruct (executeWithRetry w (ix :: ixs) (add_log logs s)) as [tx s2] eqn:X.
  destruct (executeWithRetry_frame _ _ _ _ _ X) as (_ & _ & Hl2).
  destruct tx as [sig|err]; injection H as <- <-; simpl.
  - destruct (commitSuccess_total w sig inTx s2) as [_ [l2 Hl3]].
    rewrite Hl3, Hl2. split; [exact H1|]. apply in_or_app. left. exact Hlog.
  - destruct (commitFailure_total w err inTx s2) as [_ [l2 Hl3]].
    rewrite Hl3, Hl2. split; [apply in_or_app; auto|]. apply in_or_app. left. exact Hlog.
Qed.

(** C3 (per-run budget), as the claim states it, fails. First, the two
    6 SOL accounts of one batch are both checked against the counter
    before the batch (0 SOL), both pass, and the run reclaims 12 SOL
    although the cap is 10 SOL and the prefix under the cap is the first
    account alone. Second, the check is not `total + lamports <= cap`:
    with MAX_RECLAIM_SOL_PER_RUN=7.7, a counter of 4981554810 and an
    account of 2718445190 lamports, whose sum is exactly 7.7 SOL, the
    doubles add up to 7.700000000000001 and the check denies. *)
Lemma C3_budget_overshoot_within_batch :
  match reclaimAccounts Safety.checkAccount_v2 Scenarios.w_live (Scenarios.run0 Scenarios.db_empty)
          [Scenarios.tokenStatus (demoKey "Acct1") (6 * Scenarios.SOL) true;
           Scenarios.tokenStatus (demoKey "Acct2") (6 * Scenarios.SOL) true] with
  | (inr br, s') =>
      map rr_pubkey (successful br) = [(demoKey "Acct1"); (demoKey "Acct2")] /\ failed br = [] /\
      run_total s' = 12 * Scenarios.SOL /\
      w_maxReclaimSolPerRun Scenarios.w_live = toNumber 10
  | _ => False
  end /\
  allowed (Safety.checkReclaimLimit Scenarios.w_cap77 4981554810 2718445190) = false /\
  4981554810 + 2718445190 = 77 * 100000000.
Proof. vm_compute. repeat split; reflexivity. Qed.

(** C3 (amended). The budget check denies, with the limit reason,
    exactly when the double `totalReclaimedThisRun / 1e9 + lamports / 1e9`
    exceeds maxReclaimSolPerRun, and a denial of the budget check is a
    denial of checkAccount (both SafetyManagers); processBatch advances
    the counter only after a confirmed, non-dry transaction, by the
    lamports it reports reclaimed; and every account of a batch is
    checked against the counter as it stood before the batch, a denied
    one being returned in the failed list with the gate's reason and
    logged as 'skipped'. *)
Theorem C3_budget_check_and_counter :
  (forall (w : World) (total lamports : Z),
     Safety.checkReclaimLimit w total lamports =
       if PrimFloat.ltb (w_maxReclaimSolPerRun w)
            (PrimFloat.add (PrimFloat.div (toNumber total) ONE_E9)
               (PrimFloat.div (toNumber lamports) ONE_E9))
       then deny (RLimit (w_maxReclaimSolPerRun w)) else ok_check) /\
  (forall (w : World) db total a,
     allowed (Safety.checkReclaimLimit w total (st_lamports a)) = false ->
     allowed (Safety.checkAccount_v2 w db total a) = false /\
     allowed (Safety.checkAccount_v3 w db total a) = false) /\
  (forall chk (w : World) s batch treasury dryRun r s',
     processBatch chk w s batch treasury dryRun = (r, s') ->
     run_total s' = run_total s +
       match r with
       | inr br => if dryRun then 0 else sum_reclaimed (successful br)
       | inl _ => 0
       end) /\
  (forall chk (w : World) s batch treasury dryRun a br s',
     processBatch chk w s batch treasury dryRun = (inr br, s') ->
     In a batch -> allowed (chk w (run_db s) (run_total s) a) = false ->
     In (failRec a (reason (chk w (run_db s) (run_total s) a))) (failed br) /\
     In (mkLogEntry (st_pubkey a) LSkipped 0 (reason (chk w (run_db s) (run_total s) a)) None (w_now w))
        (run_log s')).
Proof.
  split; [reflexivity|]. split; [|split].
  - intros w db total a H. unfold Safety.checkAccount_v2, Safety.checkAccount_v3.
    destruct (Safety.checkReclaimLimit w total (st_lamports a)) as [b r]; simpl in H; subst b.
    destruct (Safety.checkIdleDuration_v2 w db (st_pubkey a)) as [[|] ri];
    destruct (Safety.checkIdleDuration_v3 w db (st_pubkey a)) as [[|] ri'];
    destruct (Safety.isWhitelisted w db (st_pubkey a)), (st_executable a), (st_exists a),
      (st_operatorCanClose a); simpl; split; reflexivity.
  - intros chk w s batch treasury dryRun r s' H.
    exact (proj1 (processBatch_total chk w s batch treasury dryRun r s' H)).
  - intros chk w s batch treasury dryRun a br s'.
    exact (processBatch_denied chk w s batch treasury dryRun br s' a).
Qed.

Lemma C3_budget_check_and_counter_witness :
  (allowed (Safety.checkAccount_v2 Scenarios.w_live Scenarios.db_empty 0 Scenarios.acct12) = false /\
   allowed (Safety.checkAccount_v3 Scenarios.w_live Scenarios.db_empty 0 Scenarios.acct12) = false) /\
  run_total (snd Scenarios.c3_batch_run) =
    run_total (Scenarios.run0 Scenarios.db_empty) + sum_reclaimed (successful Scenarios.c3_br) /\
  (In (failRec Scenarios.acct12
         (reason (Safety.checkAccount_v2 Scenarios.w_live Scenarios.db_empty 0 Scenarios.acct12)))
      (failed Scenarios.c3_br) /\
   In (mkLogEntry (demoKey "Acct3") LSkipped 0
         (reason (Safety.checkAccount_v2 Scenarios.w_live Scenarios.db_empty 0 Scenarios.acct12))
         None (w_now Scenarios.w_live))
      (run_log (snd Scenarios.c3_batch_run))).
Proof.
  split; [|split].
  - apply (proj1 (proj2 C3_budget_check_and_counter) Scenarios.w_live Scenarios.db_empty 0
             Scenarios.acct12).
    vm_compute. reflexivity.
  - apply (proj1 (proj2 (proj2 C3_budget_check_and_counter)) Safety.checkAccount_v2 Scenarios.w_live
             (Scenarios.run0 Scenarios.db_empty) [Scenarios.acct12] (demoKey "Treas111") false
             (inr Scenarios.c3_br) (snd Scenarios.c3_batch_run)).
    vm_compute. reflexivity.
  - apply (proj2 (proj2 (proj2 C3_budget_check_and_counter)) Safety.checkAccount_v2 Scenarios.w_live
             (Scenarios.run0 Scenarios.db_empty) [Scenarios.acct12] (demoKey "Treas111") false
             Scenarios.acct12 Scenarios.c3_br (snd Scenarios.c3_batch_run)).
    + vm_compute. reflexivity.
    + left. reflexivity.
    + vm_compute. reflexivity.
Defined.

(** ** One outcome record per account *)

Lemma createBatches_aux_concat {A} (fuel n : nat) (l : list A) :
  (0 < n)%nat -> (length l <= fuel)%nat -> concat (createBatches_aux fuel n l) = l.
Proof.
  intros Hn. revert l. induction fuel as [|f IH]; intros l Hl; simpl.
  - destruct l; [reflexivity|simpl in Hl; lia].
  - destruct l as [|x l']; [reflexivity|].
    simpl concat. rewrite IH.
    + apply firstn_skipn.
    + rewrite length_skipn. simpl in *. lia.
Qed.

Lemma createBatches_concat {A} (l : list A) (n : nat) :
  (0 < n)%nat -> concat (createBatches l n) = l.
Proof. intros Hn. apply createBatches_aux_concat; [exact Hn|lia]. Qed.


Definition gate_gives_reason (chk : World -> DB -> Z -> AccountStatus -> SafetyCheckResult) : Prop :=
  forall w db t a, allowed (chk w db t a) = false -> reason (chk w db t a) <> None.






Ltac gate_cases :=
  repeat match goal with
  | |- context [if ?b then _ else _] => destruct b
  | |- context [match ?x with _ => _ end] => destruct x
  end; simpl; try discriminate; try congruence.


Lemma checkAccount_v3_gives_reason : gate_gives_reason Safety.checkAccount_v3.
Proof.
  intros w db t a. unfold Safety.checkAccount_v3, Safety.checkIdleDuration_v3,
    Safety.checkReclaimLimit. gate_cases.
Qed.


(** ** The idle clock of the store *)

Lemma update_row_lookup pk f (db : DB) :
  sponsored_accounts (Store.update_row pk f db) !! pk = f <$> (sponsored_accounts db !! pk).
Proof.
  unfold Store.update_row. destruct (sponsored_accounts db !! pk) eqn:E; simpl.
  - by rewrite lookup_insert_eq.
  - by rewrite E.
Qed.

Lemma markAsReclaimable_lookup now pk (db : DB) :
  sponsored_accounts (Store.markAsReclaimable now pk db) !! pk =
  (fun a => match sa_reclaimableSince a with
            | None => Store.with_reclaimableSince (Some now) a
            | Some _ => a end) <$> (sponsored_accounts db !! pk).
Proof.
  unfold Store.markAsReclaimable. destruct (sponsored_accounts db !! pk) as [a|] eqn:E; simpl.
  - destruct (sa_reclaimableSince a); simpl; [by rewrite E|by rewrite lookup_insert_eq].
  - by rewrite E.
Qed.

Ltac scan_cases H :=
  repeat match type of H with
  | context [match ?x with _ => _ end] => destruct x eqn:?
  | context [if ?b then _ else _] => destruct b eqn:?
  end.

Definition idle_clock_step (now : Z) (st : AccountStatus) (a a' : SponsoredAccount) : Prop :=
  sa_reclaimableSince a' = sa_reclaimableSince a \/
  (sa_reclaimableSince a' = None /\ st_operatorCanClose st = false) \/
  (sa_reclaimableSince a = None /\ sa_reclaimableSince a' = Some now /\
   st_operatorCanClose st = true).

Lemma analyzeAccount_reclaimableSince (w : World) (db : DB) pk info st db1 a :
  Scanner.analyzeAccount w db pk info = (st, db1) ->
  sponsored_accounts db !! pk = Some a ->
  exists a1, sponsored_accounts db1 !! pk = Some a1 /\ idle_clock_step (w_now w) st a a1.
Proof.
  intros H Ha. unfold Scanner.analyzeAccount in H. unfold idle_clock_step.
  scan_cases H; injection H as <- <-;
  unfold Store.updateAccountStatus, Store.updateAccountAuthority, Store.clearReclaimableState;
  rewrite ?update_row_lookup, ?markAsReclaimable_lookup, Ha; simpl;
  try (eexists; split; [reflexivity|]; simpl; auto; fail).
  destruct (sa_reclaimableSince a) eqn:R; simpl; eexists; (split; [reflexivity|]); simpl; auto.
Qed.

(** One scan (analyzeAccount, then updateAccountStatus) leaves the idle
    clock of a tracked account unchanged, clears it while reporting that
    the operator cannot close the account, or sets it to now from null
    while reporting that the operator can. *)
Lemma scanOne_reclaimableSince (w : World) (db : DB) pk info st db' a :
  Scanner.scanOne w db pk info = (st, db') ->
  sponsored_accounts db !! pk = Some a ->
  exists a', sponsored_accounts db' !! pk = Some a' /\ idle_clock_step (w_now w) st a a'.
Proof.
  intros H Ha. unfold Scanner.scanOne in H.
  destruct (Scanner.analyzeAccount w db pk info) as [st1 db1] eqn:E.
  destruct (analyzeAccount_reclaimableSince w db pk info st1 db1 a E Ha) as [a1 [H1 H2]].
  destruct info; injection H as <- <-;
  unfold Store.updateAccountStatus; rewrite update_row_lookup, H1; simpl;
  eexists; (split; [reflexivity|exact H2]).
Qed.

(** C5 (set-once idle clock). markAsReclaimable leaves a non-null
    [reclaimableSince] untouched and sets a null one to now;
    clearReclaimableState nulls it; a scan keeps it, clears it (only when
    it reports that the operator cannot close the account) or sets it
    from null; so scans that keep finding the operator able to close the
    account never change a non-null value. *)
Theorem C5_reclaimableSince_set_once :
  (forall now pk (db : DB) a t,
     sponsored_accounts db !! pk = Some a -> sa_reclaimableSince a = Some t ->
     Store.markAsReclaimable now pk db = db) /\
  (forall now pk (db : DB) a,
     sponsored_accounts db !! pk = Some a -> sa_reclaimableSince a = None ->
     sponsored_accounts (Store.markAsReclaimable now pk db) !! pk =
       Some (Store.with_reclaimableSince (Some now) a)) /\
  (forall pk (db : DB) a,
     sponsored_accounts db !! pk = Some a ->
     sponsored_accounts (Store.clearReclaimableState pk db) !! pk =
       Some (Store.with_reclaimableSince None a)) /\
  (forall (w : World) (db : DB) pk info st db' a,
     Scanner.scanOne w db pk info = (st, db') ->
     sponsored_accounts db !! pk = Some a ->
     exists a', sponsored_accounts db' !! pk = Some a' /\ idle_clock_step (w_now w) st a a') /\
  (forall pk scans (db : DB) a t,
     sponsored_accounts db !! pk = Some a -> sa_reclaimableSince a = Some t ->
     Forall (fun st => st_operatorCanClose st = true) (fst (Scanner.scanRepeated pk scans db)) ->
     exists a', sponsored_accounts (snd (Scanner.scanRepeated pk scans db)) !! pk = Some a' /\
                sa_reclaimableSince a' = Some t).
Proof.
  split; [|split; [|split; [|split]]].
  - intros now pk db a t Ha Ht. unfold Store.markAsReclaimable. by rewrite Ha, Ht.
  - intros now pk db a Ha Ht. rewrite markAsReclaimable_lookup, Ha. simpl. by rewrite Ht.
  - intros pk db a Ha. unfold Store.clearReclaimableState. by rewrite update_row_lookup, Ha.
  - exact scanOne_reclaimableSince.
  - intros pk scans. induction scans as [|[w info] rest IH]; intros db a t Ha Ht HF; simpl in *.
    + eauto.
    + destruct (Scanner.scanOne w db pk info) as [st db1] eqn:E.
      destruct (Scanner.scanRepeated pk rest db1) as [sts db2] eqn:E2. simpl in *.
      inversion HF as [|x l Hst HF' Heq]; subst.
      destruct (scanOne_reclaimableSince w db pk info st db1 a E Ha) as [a1 [H1 Hstep]].
      destruct Hstep as [Hs|[[_ Hc]|[Hn _]]]; [|congruence|congruence].
      specialize (IH db1 a1 t H1 ltac:(congruence)). rewrite E2 in IH. simpl in IH.
      exact (IH HF').
Qed.

Lemma C5_reclaimableSince_set_once_witness :
  Store.markAsReclaimable (Scenarios.now0 + 1) (demoKey "Acct1") (Scenarios.db_with Scenarios.row5)
    = Scenarios.db_with Scenarios.row5 /\
  exists a', sponsored_accounts (snd (Scanner.scanRepeated (demoKey "Acct1")
                 [(Scenarios.w_idle0, Some Scenarios.opTokenInfo);
                  (Scenarios.w_idle0, Some Scenarios.opTokenInfo)]
                 (Scenarios.db_with Scenarios.row5))) !! (demoKey "Acct1") = Some a' /\
             sa_reclaimableSince a' = Some (Scenarios.now0 - 3 * Scenarios.day).
Proof.
  split.
  - apply (proj1 C5_reclaimableSince_set_once (Scenarios.now0 + 1) (demoKey "Acct1")
             (Scenarios.db_with Scenarios.row5) Scenarios.row5 (Scenarios.now0 - 3 * Scenarios.day));
      vm_compute; reflexivity.
  - apply (proj2 (proj2 (proj2 (proj2 C5_reclaimableSince_set_once))) (demoKey "Acct1")
             [(Scenarios.w_idle0, Some Scenarios.opTokenInfo);
              (Scenarios.w_idle0, Some Scenarios.opTokenInfo)]
             (Scenarios.db_with Scenarios.row5) Scenarios.row5 (Scenarios.now0 - 3 * Scenarios.day)).
    + vm_compute. reflexivity.
    + reflexivity.
    + vm_compute. repeat constructor.
Defined.

(** ** Upsert of tracked accounts *)

Lemma addAccountsBatch_snoc accounts a (db : DB) :
  Store.addAccountsBatch (accounts ++ [a]) db = Store.addAccount a (Store.addAccountsBatch accounts db).
Proof. unfold Store.addAccountsBatch. by rewrite fold_left_app. Qed.

Lemma addAccountsBatch_lookup accounts (db : DB) pk :
  sponsored_accounts (Store.addAccountsBatch accounts db) !! pk =
  match last (filter (fun a => sa_pubkey a = pk) accounts) with
  | Some a => Some a
  | None => sponsored_accounts db !! pk
  end.
Proof.
  induction accounts as [|a l IH] using rev_ind; [reflexivity|].
  rewrite addAccountsBatch_snoc, filter_app, last_app. simpl.
  destruct (decide (sa_pubkey a = pk)) as [<-|Hne].
  - rewrite filter_cons_True by reflexivity. simpl. by rewrite lookup_insert_eq.
  - rewrite filter_cons_False by exact Hne. simpl.
    rewrite lookup_insert_ne by exact Hne. exact IH.
Qed.

(** C6, as the claim states it, fails: re-upserting a tracked account
    whose operator can still close it replaces its non-null
    [reclaimableSince] by the value supplied (here null). *)
Lemma C6_upsert_overwrites_reclaimableSince :
  sa_operatorCanClose Scenarios.row5 = true /\
  sa_reclaimableSince Scenarios.row5 = Some (Scenarios.now0 - 3 * Scenarios.day) /\
  sponsored_accounts (Store.addAccount (Scenarios.row (demoKey "Acct1") None None true)
                        (Scenarios.db_with Scenarios.row5)) !! (demoKey "Acct1")
    = Some (Scenarios.row (demoKey "Acct1") None None true) /\
  sponsored_accounts (Store.addAccountsBatch [Scenarios.row (demoKey "Acct1") None None true]
                        (Scenarios.db_with Scenarios.row5)) !! (demoKey "Acct1")
    = Some (Scenarios.row (demoKey "Acct1") None None true).
Proof. vm_compute. repeat split. Qed.

(** C6 (amended). addAccount and addAccountsBatch keep one row per
    public key and are last-write-wins for every column, reclaimableSince
    included: after addAccount the row of its key is exactly the account
    given, other rows, the history and the whitelist are unchanged, and
    repeating it changes nothing; after addAccountsBatch the row of a key
    is the last account of the batch with that key, if any. *)
Theorem C6_upsert_replaces_row :
  (forall a (db : DB),
     sponsored_accounts (Store.addAccount a db) !! sa_pubkey a = Some a /\
     (forall pk, pk <> sa_pubkey a ->
        sponsored_accounts (Store.addAccount a db) !! pk = sponsored_accounts db !! pk) /\
     reclaim_history (Store.addAccount a db) = reclaim_history db /\
     whitelist (Store.addAccount a db) = whitelist db /\
     Store.addAccount a (Store.addAccount a db) = Store.addAccount a db) /\
  (forall accounts (db : DB) pk,
     sponsored_accounts (Store.addAccountsBatch accounts db) !! pk =
     match last (filter (fun a => sa_pubkey a = pk) accounts) with
     | Some a => Some a
     | None => sponsored_accounts db !! pk
     end).
Proof.
  split; [|exact addAccountsBatch_lookup].
  intros a db. unfold Store.addAccount. simpl.
  split; [by rewrite lookup_insert_eq|].
  split; [intros pk Hne; by rewrite lookup_insert_ne by congruence|].
  split; [reflexivity|]. split; [reflexivity|].
  by rewrite insert_insert_eq.
Qed.

Lemma C6_upsert_replaces_row_witness :
  sponsored_accounts (Store.addAccount Scenarios.row5 (Scenarios.db_with (Scenarios.row (demoKey "Acct2") None None false)))
    !! (demoKey "Acct2") = Some (Scenarios.row (demoKey "Acct2") None None false).
Proof.
  rewrite (proj1 (proj2 (proj1 C6_upsert_replaces_row Scenarios.row5
                        (Scenarios.db_with (Scenarios.row (demoKey "Acct2") None None false)))) (demoKey "Acct2")).
  - vm_compute. reflexivity.
  - vm_compute. discriminate.
Defined.

(** ** Retry of a batch transaction *)

Lemma processBatch_sent chk (w : World) s batch treasury op fs inTx ix ixs logs :
  w_operatorKey w = Some op ->
  buildLoop chk w (run_db s) (run_total s) op treasury batch = (fs, inTx, ix :: ixs, logs) ->
  fst (processBatch chk w s batch treasury false) =
  match fst (executeWithRetry w (ix :: ixs) (add_log logs s)) with
  | TxOk signature => inr (mkBatchResult (map (okRec signature) inTx) fs (sum_lamports inTx))
  | TxErr error => inr (mkBatchResult [] (fs ++ map (txFailRec error) inTx) 0)
  end.
Proof.
  intros Hop HB. unfold processBatch. rewrite Hop, HB.
  destruct (executeWithRetry w (ix :: ixs) (add_log logs s)) as [[sig|err] s2]; reflexivity.
Qed.

(** C7 (batch retry). executeWithRetry submits the whole instruction
    list up to three times, sleeping 1000 ms then 2000 ms between
    attempts; three failures give the third error, a success on the
    third attempt gives its signature; processBatch then records every
    account of the transaction as successful with that signature, or
    every one as failed with that error. *)
Theorem C7_retry_whole_batch :
  (forall (w : World) ixs s e1 e2 e3,
     w_send w (length (run_sent s)) ixs = inr e1 ->
     w_send w (S (length (run_sent s))) ixs = inr e2 ->
     w_send w (S (S (length (run_sent s)))) ixs = inr e3 ->
     executeWithRetry w ixs s =
       (TxErr e3, mkRun (run_db s) (run_total s) (run_log s)
                    (run_sent s ++ [ixs; ixs; ixs]) (run_sleeps s ++ [1000; 2000]))) /\
  (forall (w : World) ixs s e1 e2 sig,
     w_send w (length (run_sent s)) ixs = inr e1 ->
     w_send w (S (length (run_sent s))) ixs = inr e2 ->
     w_send w (S (S (length (run_sent s)))) ixs = inl sig ->
     executeWithRetry w ixs s =
       (TxOk sig, mkRun (run_db s) (run_total s) (run_log s)
                    (run_sent s ++ [ixs; ixs; ixs]) (run_sleeps s ++ [1000; 2000]))) /\
  (forall chk (w : World) s batch treasury op fs inTx ix ixs logs,
     w_operatorKey w = Some op ->
     buildLoop chk w (run_db s) (run_total s) op treasury batch = (fs, inTx, ix :: ixs, logs) ->
     fst (processBatch chk w s batch treasury false) =
     match fst (executeWithRetry w (ix :: ixs) (add_log logs s)) with
     | TxOk signature => inr (mkBatchResult (map (okRec signature) inTx) fs (sum_lamports inTx))
     | TxErr error => inr (mkBatchResult [] (fs ++ map (txFailRec error) inTx) 0)
     end).
Proof.
  split; [|split; [|exact processBatch_sent]].
  - intros w ixs s e1 e2 e3 H1 H2 H3. unfold executeWithRetry. simpl.
    rewrite H1. simpl. rewrite length_app, Nat.add_1_r, H2. simpl.
    replace (length ((run_sent s ++ [ixs]) ++ [ixs])) with (S (S (length (run_sent s))))
      by (rewrite !length_app; simpl; lia).
    rewrite H3.
    unfold add_sent, delay. simpl. by rewrite <- !app_assoc.
  - intros w ixs s e1 e2 sig H1 H2 H3. unfold executeWithRetry. simpl.
    rewrite H1. simpl. rewrite length_app, Nat.add_1_r, H2. simpl.
    replace (length ((run_sent s ++ [ixs]) ++ [ixs])) with (S (S (length (run_sent s))))
      by (rewrite !length_app; simpl; lia).
    rewrite H3.
    unfold add_sent, delay. simpl. by rewrite <- !app_assoc.
Qed.

Lemma C7_retry_whole_batch_witness :
  executeWithRetry Scenarios.w_flaky Scenarios.c7_ixs (Scenarios.run0 Scenarios.db_empty) =
    (TxOk "sig3rd", mkRun Scenarios.db_empty 0 [] [Scenarios.c7_ixs; Scenarios.c7_ixs; Scenarios.c7_ixs]
                      [1000; 2000]) /\
  fst (processBatch Safety.checkAccount_v2 Scenarios.w_flaky (Scenarios.run0 Scenarios.db_empty)
         Scenarios.c7_batch (demoKey "Treas111") false) =
  match fst (executeWithRetry Scenarios.w_flaky Scenarios.c7_ixs
               (add_log [] (Scenarios.run0 Scenarios.db_empty))) with
  | TxOk signature =>
      inr (mkBatchResult (map (okRec signature) Scenarios.c7_batch) [] (sum_lamports Scenarios.c7_batch))
  | TxErr error => inr (mkBatchResult [] ([] ++ map (txFailRec error) Scenarios.c7_batch) 0)
  end.
Proof.
  split.
  - apply (proj1 (proj2 C7_retry_whole_batch) Scenarios.w_flaky Scenarios.c7_ixs
             (Scenarios.run0 Scenarios.db_empty) "Blockhash not found" "Blockhash not found");
      reflexivity.
  - apply (proj2 (proj2 C7_retry_whole_batch) Safety.checkAccount_v2 Scenarios.w_flaky
             (Scenarios.run0 Scenarios.db_empty) Scenarios.c7_batch (demoKey "Treas111") "Oper111" []
             Scenarios.c7_batch (CloseAccountIx (demoKey "Acct1") (demoKey "Treas111") "Oper111")
             [CloseAccountIx (demoKey "Acct2") (demoKey "Treas111") "Oper111"] []).
    + reflexivity.
    + vm_compute. reflexivity.
Defined.

(** ** Authority of token accounts in the scanner *)




(** ** Dry runs *)

Lemma processBatch_dry_frame chk (w : World) s batch treasury r s' :
  processBatch chk w s batch treasury true = (r, s') ->
  run_db s' = run_db s /\ run_total s' = run_total s /\
  run_sent s' = run_sent s /\ run_sleeps s' = run_sleeps s.
Proof.
  unfold processBatch. intros H.
  destruct (w_operatorKey w) as [op|]; [|injection H as <- <-; auto].
  destruct (buildLoop chk w (run_db s) (run_total s) op treasury batch) as [[[fs inTx] ixs] logs].
  destruct ixs; injection H as <- <-; simpl; auto.
Qed.

Lemma batchLoop_dry_frame chk (w : World) treasury batches result s r s' :
  w_dryRun w = true ->
  batchLoop chk w treasury batches result s = (r, s') ->
  run_db s' = run_db s /\ run_total s' = run_total s /\
  run_sent s' = run_sent s /\ run_sleeps s' = run_sleeps s.
Proof.
  intros Hd. revert result s.
  induction batches as [|batch rest IH]; intros result s H; simpl in H.
  - injection H as <- <-. auto.
  - rewrite Hd in H.
    destruct (processBatch chk w s batch treasury true) as [r1 s1] eqn:P.
    apply processBatch_dry_frame in P as (P1 & P2 & P3 & P4).
    match type of H with
    | (if ?c then _ else _) = _ => destruct c
    end.
    + injection H as <- <-. auto.
    + apply IH in H as (H1 & H2 & H3 & H4).
      rewrite H1, H2, H3, H4. auto.
Qed.

(** C9 (dry run). With dryRun set, processBatch runs the same first
    loop (safety gate and close instructions) as a live run and reports
    every account of the would-be transaction as successful, with its
    lamports and no signature: the records of a confirmed live
    transaction, less the signature. A dry reclaimAccounts leaves the
    store (status rows and reclaim history), the run counter, the
    submitted transactions and the retry sleeps as they were. *)
Theorem C9_dry_run_no_effects :
  (forall chk (w : World) s batch treasury op fs inTx ix ixs logs,
     w_operatorKey w = Some op ->
     buildLoop chk w (run_db s) (run_total s) op treasury batch = (fs, inTx, ix :: ixs, logs) ->
     fst (processBatch chk w s batch treasury true) =
       inr (mkBatchResult (map dryRec inTx) fs (sum_lamports inTx)) /\
     (forall signature,
        map (fun x => (rr_pubkey x, rr_success x, rr_lamportsReclaimed x, rr_error x))
            (map dryRec inTx) =
        map (fun x => (rr_pubkey x, rr_success x, rr_lamportsReclaimed x, rr_error x))
            (map (okRec signature) inTx)) /\
     Forall (fun x => rr_txSignature x = None) (map dryRec inTx)) /\
  (forall chk (w : World) s accounts r s',
     w_dryRun w = true ->
     reclaimAccounts chk w s accounts = (r, s') ->
     run_db s' = run_db s /\ run_total s' = run_total s /\
     run_sent s' = run_sent s /\ run_sleeps s' = run_sleeps s).
Proof.
  split.
  - intros chk w s batch treasury op fs inTx ix ixs logs Hop HB.
    split; [unfold processBatch; rewrite Hop, HB; reflexivity|].
    split.
    + intros signature. clear Hop HB. induction inTx as [|a inTx IH]; simpl; [reflexivity|]. by rewrite IH.
    + clear Hop HB. induction inTx as [|a inTx IH]; simpl; constructor; auto.
  - intros chk w s accounts r s' Hd H. unfold reclaimAccounts in H.
    destruct accounts as [|a rest]; [injection H as <- <-; auto|].
    destruct (String.eqb (w_treasuryAddress w) ""); [injection H as <- <-; auto|].
    destruct (publicKeyError (w_treasuryAddress w)); [injection H as <- <-; auto|].
    destruct (batchLoop chk w (w_treasuryAddress w) (createBatches (a :: rest) MAX_INSTRUCTIONS)
                empty_result s) as [r1 s1] eqn:B.
    injection H as <- <-. exact (batchLoop_dry_frame chk w _ _ _ _ _ _ Hd B).
Qed.

Lemma C9_dry_run_no_effects_witness :
  (fst (processBatch Safety.checkAccount_v2 Scenarios.w_dry (Scenarios.run0 Scenarios.db_empty)
          Scenarios.c7_batch (demoKey "Treas111") true) =
     inr (mkBatchResult (map dryRec Scenarios.c7_batch) [] (sum_lamports Scenarios.c7_batch)) /\
   (forall signature,
      map (fun x => (rr_pubkey x, rr_success x, rr_lamportsReclaimed x, rr_error x))
          (map dryRec Scenarios.c7_batch) =
      map (fun x => (rr_pubkey x, rr_success x, rr_lamportsReclaimed x, rr_error x))
          (map (okRec signature) Scenarios.c7_batch)) /\
   Forall (fun x => rr_txSignature x = None) (map dryRec Scenarios.c7_batch)) /\
  (let s' := snd Scenarios.c9_run in
   let s := Scenarios.run0 Scenarios.db_empty in
   run_db s' = run_db s /\ run_total s' = run_total s /\
   run_sent s' = run_sent s /\ run_sleeps s' = run_sleeps s).
Proof.
  split.
  - apply (proj1 C9_dry_run_no_effects Safety.checkAccount_v2 Scenarios.w_dry
             (Scenarios.run0 Scenarios.db_empty) Scenarios.c7_batch (demoKey "Treas111") "Oper111" []
             Scenarios.c7_batch (CloseAccountIx (demoKey "Acct1") (demoKey "Treas111") "Oper111")
             [CloseAccountIx (demoKey "Acct2") (demoKey "Treas111") "Oper111"] []).
    + reflexivity.
    + vm_compute. reflexivity.
  - apply (proj2 C9_dry_run_no_effects Safety.checkAccount_v2 Scenarios.w_dry
             (Scenarios.run0 Scenarios.db_empty) Scenarios.c7_batch (fst Scenarios.c9_run)).
    + reflexivity.
    + vm_compute. reflexivity.
Defined.

(** ** reclaimSingle *)

(** The two messages `new PublicKey(s)` throws. *)
Lemma publicKeyError_msg (k m : string) :
  publicKeyError k = Some m -> m = "Non-base58 character" \/ m = "Invalid public key input".
Proof.
  unfold publicKeyError. destruct (bs58DecodedLength k) as [n|].
  - destruct (Nat.eqb n PUBLIC_KEY_LENGTH); intros H; [discriminate|].
    injection H as <-. auto.
  - intros H. injection H as <-. auto.
Qed.

(** processBatch on the status reclaimSingle fabricates: it throws the
    keypair error, or records the account as failed with the gate's
    denial, the null instruction, or the error of `new PublicKey`, and
    only appends log entries. *)
Lemma processBatch_single chk (w : World) s pk treasury dryRun :
  processBatch chk w s [singleStatus pk] treasury dryRun = (inl (w_operatorKeyError w), s) \/
  exists e logs,
    processBatch chk w s [singleStatus pk] treasury dryRun =
      (inr (mkBatchResult [] [failRec (singleStatus pk) e] 0), add_log logs s) /\
    ((allowed (chk w (run_db s) (run_total s) (singleStatus pk)) = false /\
      e = reason (chk w (run_db s) (run_total s) (singleStatus pk))) \/
     e = Some (RMsg "Could not create close instruction") \/
     exists m, publicKeyError pk = Some m /\ e = Some (RMsg m)).
Proof.
  unfold processBatch. destruct (w_operatorKey w) as [op|]; [right|left; reflexivity].
  simpl. destruct (allowed (chk w (run_db s) (run_total s) (singleStatus pk))) eqn:A; simpl.
  - unfold createCloseInstruction. simpl.
    destruct (publicKeyError pk) as [m|] eqn:E; simpl.
    + eexists; eexists; split; [reflexivity|]. right. right. exists m. auto.
    + eexists; eexists; split; [reflexivity|auto].
  - eexists; eexists; split; [reflexivity|auto].
Qed.

(** C10 (reclaimSingle), counterexample. reclaimSingle can throw
    instead of returning a result: with no treasury address configured,
    reclaimAccounts throws 'Treasury address not configured'. It can
    also return a failure for a reason other than a safety denial or the
    null instruction: with no operator keypair on disk, processBatch
    throws the keypair error, and the account is recorded as failed with
    that message; and reclaimSingle('bad_key') fails with the message of
    `new PublicKey`, 'Non-base58 character'. *)
Lemma C10_single_throws_or_keypair_error :
  fst (reclaimSingle Safety.checkAccount_v2 Scenarios.w_notreasury
         (Scenarios.run0 Scenarios.db_empty) (demoKey "Acct1")) =
    inl "Treasury address not configured" /\
  fst (reclaimSingle Safety.checkAccount_v2 Scenarios.w_nokey
         (Scenarios.run0 Scenarios.db_empty) (demoKey "Acct1")) =
    inr (mkReclaimResult (demoKey "Acct1") false 0 None
           (Some (RMsg "Operator wallet not found at: ./wallet/operator.json"))) /\
  fst (reclaimSingle Safety.checkAccount_v2 Scenarios.w_live
         (Scenarios.run0 Scenarios.db_empty) "bad_key") =
    inr (mkReclaimResult "bad_key" false 0 None (Some (RMsg "Non-base58 character"))).
Proof. repeat split; vm_compute; reflexivity. Qed.

(** C10 (reclaimSingle), amended. Whatever the gate, reclaimSingle
    submits no transaction, writes nothing to the store and leaves the
    run counter unchanged. It either throws 'Treasury address not
    configured', or throws what `new PublicKey` throws for the treasury
    address ('Non-base58 character' or 'Invalid public key input'), or
    returns a failure for [pubkey] with no lamports and no signature,
    whose error is the gate's denial, 'Could not create close
    instruction', what `new PublicKey(pubkey)` throws ('Non-base58
    character' or 'Invalid public key input'), or the operator keypair
    error. *)
Theorem C10_single_never_succeeds chk (w : World) s pubkey :
  let res := reclaimSingle chk w s pubkey in
  run_sent (snd res) = run_sent s /\
  run_db (snd res) = run_db s /\
  run_total (snd res) = run_total s /\
  (fst res = inl "Treasury address not configured" \/
   (exists m, publicKeyError (w_treasuryAddress w) = Some m /\ fst res = inl m /\
      (m = "Non-base58 character" \/ m = "Invalid public key input")) \/
   exists x, fst res = inr x /\ rr_pubkey x = pubkey /\ rr_success x = false /\
     rr_lamportsReclaimed x = 0 /\ rr_txSignature x = None /\
     ((allowed (chk w (run_db s) (run_total s) (singleStatus pubkey)) = false /\
       rr_error x = reason (chk w (run_db s) (run_total s) (singleStatus pubkey))) \/
      rr_error x = Some (RMsg "Could not create close instruction") \/
      (exists m, publicKeyError pubkey = Some m /\ rr_error x = Some (RMsg m) /\
         (m = "Non-base58 character" \/ m = "Invalid public key input")) \/
      rr_error x = Some (RMsg (w_operatorKeyError w)))).
Proof.
  intros res. subst res. unfold reclaimSingle, reclaimAccounts.
  destruct (String.eqb (w_treasuryAddress w) "").
  { simpl. auto 6. }
  destruct (publicKeyError (w_treasuryAddress w)) as [mt|] eqn:T.
  { simpl. split; [reflexivity|]. split; [reflexivity|]. split; [reflexivity|].
    right. left. exists mt. split; [reflexivity|]. split; [reflexivity|].
    exact (publicKeyError_msg _ _ T). }
  change (createBatches [singleStatus pubkey] MAX_INSTRUCTIONS) with [[singleStatus pubkey]].
  simpl.
  destruct (processBatch_single chk w s pubkey (w_treasuryAddress w) (w_dryRun w))
    as [P | (e & logs & P & E)]; rewrite P.
  - destruct (PrimFloat.leb (Safety.getRemainingBudget w (run_total s)) (toNumber 0)); simpl;
      (split; [reflexivity|]; split; [reflexivity|]; split; [reflexivity|]);
      right; right; eexists; (split; [reflexivity|]); simpl; auto 10.
  - destruct (PrimFloat.leb (Safety.getRemainingBudget w (run_total (add_log logs s))) (toNumber 0)); simpl;
      (split; [reflexivity|]; split; [reflexivity|]; split; [reflexivity|]);
      right; right; eexists; (split; [reflexivity|]); simpl;
      (split; [reflexivity|]); (split; [reflexivity|]); (split; [reflexivity|]);
      (split; [reflexivity|]); destruct E as [E|[E|(m & Em & E)]]; auto;
      do 2 right; left; exists m; repeat split; auto; exact (publicKeyError_msg _ _ Em).
Qed.


Lemma isWhitelisted_iff (w : World) (db : DB) pk :
  Safety.isWhitelisted w db pk = true <-> pk ∈ whitelist db \/ pk ∈ w_cfgWhitelist w.
Proof.
  unfold Safety.isWhitelisted, Store.isWhitelisted.
  rewrite orb_true_iff, !bool_decide_eq_true. reflexivity.
Qed.

(** part_002, addToWhitelist / removeFromWhitelist: after adding a key,
    isWhitelisted holds for it and checkAccount denies its account with
    'Account is whitelisted'. After removing it, the key is in neither
    list. Neither call changes the whitelisting of any other key. *)
Theorem whitelist_add_remove (w : World) (db : DB) pk :
  let added := Safety.addToWhitelist w db pk in
  let removed := Safety.removeFromWhitelist w db pk in
  Safety.isWhitelisted (fst added) (snd added) pk = true /\
  (forall total a, st_pubkey a = pk ->
     Safety.checkAccount_v2 (fst added) (snd added) total a = deny RWhitelisted) /\
  Safety.isWhitelisted (fst removed) (snd removed) pk = false /\
  (forall q, q <> pk ->
     Safety.isWhitelisted (fst added) (snd added) q = Safety.isWhitelisted w db q /\
     Safety.isWhitelisted (fst removed) (snd removed) q = Safety.isWhitelisted w db q).
Proof.
  intros added removed.
  assert (Ha : Safety.isWhitelisted (fst added) (snd added) pk = true).
  { apply isWhitelisted_iff. simpl. left. set_solver. }
  split; [exact Ha|]. split.
  - intros total a <-. unfold Safety.checkAccount_v2. rewrite Ha. reflexivity.
  - split.
    + apply not_true_is_false. rewrite isWhitelisted_iff. simpl. set_solver.
    + intros q Hq. split; apply Bool.eq_iff_eq_true; rewrite !isWhitelisted_iff; simpl; set_solver.
Qed.

Lemma setFromList_spec (seen xs : list string) :
  NoDup seen ->
  NoDup (Safety.setFromList seen xs) /\
  (forall x, x ∈ Safety.setFromList seen xs <-> x ∈ seen \/ x ∈ xs).
Proof.
  revert seen. induction xs as [|x xs IH]; intros seen Hs; simpl.
  - split; [exact Hs|]. intros y. set_solver.
  - case_bool_decide as Hx.
    + destruct (IH seen Hs) as [H1 H2]. split; [exact H1|]. intros y. rewrite H2. set_solver.
    + assert (Hs' : NoDup (seen ++ [x])).
      { apply NoDup_app. split; [exact Hs|]. split; [set_solver|apply NoDup_singleton]. }
      destruct (IH _ Hs') as [H1 H2]. split; [exact H1|]. intros y. rewrite H2. set_solver.
Qed.

(** part_002, getWhitelist: the merged list has no duplicates and holds
    exactly the keys isWhitelisted accepts (store or configuration). *)
Theorem getWhitelist_spec (w : World) (db : DB) :
  NoDup (Safety.getWhitelist w db) /\
  (forall pk, pk ∈ Safety.getWhitelist w db <-> Safety.isWhitelisted w db pk = true).
Proof.
  unfold Safety.getWhitelist, Store.getWhitelist.
  destruct (setFromList_spec [] (elements (whitelist db) ++ elements (w_cfgWhitelist w)) (NoDup_nil_2))
    as [H1 H2].
  split; [exact H1|]. intros pk. rewrite H2, isWhitelisted_iff, elem_of_app, !elem_of_elements.
  set_solver.
Qed.

(** part_002, filterSafeAccounts: [safe] is the subsequence of accounts
    the gate allows, the accounts of [filtered] are the subsequence it
    denies, in input order. Each filtered reason is the gate's reason, or
    'Unknown' when the gate gave none. *)
Theorem filterSafeAccounts_partition chk (w : World) (db : DB) total accounts :
  let r := Safety.filterSafeAccounts chk w db total accounts in
  fst r = List.filter (fun a => allowed (chk w db total a)) accounts /\
  map fst (snd r) = List.filter (fun a => negb (allowed (chk w db total a))) accounts /\
  Forall (fun '(a, why) =>
            reason (chk w db total a) = Some why \/
            (reason (chk w db total a) = None /\ why = RMsg "Unknown")) (snd r).
Proof.
  induction accounts as [|a rest IH]; simpl; [auto|].
  destruct (Safety.filterSafeAccounts chk w db total rest) as [safe filtered].
  simpl in IH. destruct IH as (H1 & H2 & H3).
  destruct (allowed (chk w db total a)); simpl.
  - rewrite H1, H2. auto.
  - rewrite H1, H2. split; [reflexivity|]. split; [reflexivity|].
    constructor; [|exact H3].
    destruct (reason (chk w db total a)); auto.
Qed.

Lemma createBatches_aux_shape {A} (fuel n : nat) (l : list A) :
  (0 < n)%nat ->
  forall i b, nth_error (createBatches_aux fuel n l) i = Some b ->
  b <> [] /\ (length b <= n)%nat /\
  ((S i < length (createBatches_aux fuel n l))%nat -> length b = n).
Proof.
  intros Hn. revert l. induction fuel as [|f IH]; intros l i b H; simpl in H.
  - destruct i; discriminate.
  - destruct l as [|x l']; [destruct i; discriminate|].
    destruct i as [|i]; simpl in H.
    + injection H as <-. split; [destruct n; [lia|discriminate]|].
      split; [rewrite length_firstn; lia|].
      simpl. intros Hlen.
      assert (Hs : skipn n (x :: l') <> []).
      { intros E. rewrite E in Hlen. destruct f; simpl in Hlen; lia. }
      assert (length (skipn n (x :: l')) <> 0%nat) by (destruct (skipn n (x :: l')); [done|discriminate]).
      rewrite length_skipn in H. rewrite length_firstn. lia.
    + destruct (IH _ _ _ H) as (H1 & H2 & H3).
      split; [exact H1|]. split; [exact H2|]. simpl. intros Hl. apply H3. lia.
Qed.

(** reclaim.ts, createBatches: for a positive batch size, the batches
    concatenate back to the input. Each batch is non-empty and holds at
    most [maxPerBatch] elements, and every batch but the last is full. *)
Theorem createBatches_shape {A} (l : list A) (n : nat) :
  (0 < n)%nat ->
  concat (createBatches l n) = l /\
  forall i b, nth_error (createBatches l n) i = Some b ->
  b <> [] /\ (length b <= n)%nat /\ ((S i < length (createBatches l n))%nat -> length b = n).
Proof.
  intros Hn. split; [apply createBatches_concat; exact Hn|].
  apply createBatches_aux_shape. exact Hn.
Qed.

Lemma sum_success_app (l1 l2 : list ReclaimHistoryEntry) :
  fold_right (fun h t => h_lamportsReclaimed h + t) 0 (List.filter Store.isSuccess (l1 ++ l2)) =
  fold_right (fun h t => h_lamportsReclaimed h + t) 0 (List.filter Store.isSuccess l1) +
  fold_right (fun h t => h_lamportsReclaimed h + t) 0 (List.filter Store.isSuccess l2).
Proof.
  induction l1 as [|h l1 IH]; simpl; [reflexivity|].
  destruct (Store.isSuccess h); simpl; lia.
Qed.

Lemma update_row_history pk f (db : DB) :
  reclaim_history (Store.update_row pk f db) = reclaim_history db.
Proof. unfold Store.update_row. destruct (sponsored_accounts db !! pk); reflexivity. Qed.

Lemma getTotalReclaimed_addHistory now pk lam st r sig (db : DB) :
  Store.getTotalReclaimed (Store.addReclaimHistory now pk lam st r sig db) =
  Store.getTotalReclaimed db + match st with HSuccess => lam | _ => 0 end.
Proof.
  unfold Store.getTotalReclaimed, Store.addReclaimHistory. simpl.
  rewrite sum_success_app. destruct st; simpl; lia.
Qed.

Lemma commitSuccess_totalReclaimed (w : World) sig accs s :
  Store.getTotalReclaimed (run_db (commitSuccess w sig accs s)) =
  Store.getTotalReclaimed (run_db s) + sum_lamports accs.
Proof.
  revert s. induction accs as [|a rest IH]; intros s; simpl; [lia|].
  rewrite IH. simpl. rewrite getTotalReclaimed_addHistory.
  unfold Store.getTotalReclaimed, Store.updateAccountStatus. rewrite update_row_history. simpl. lia.
Qed.

Lemma commitFailure_totalReclaimed (w : World) err accs s :
  Store.getTotalReclaimed (run_db (commitFailure w err accs s)) =
  Store.getTotalReclaimed (run_db s).
Proof.
  revert s. induction accs as [|a rest IH]; intros s; simpl; [lia|].
  rewrite IH. simpl. rewrite getTotalReclaimed_addHistory. lia.
Qed.

Lemma executeWithRetry_db (w : World) ixs s :
  run_db (snd (executeWithRetry w ixs s)) = run_db s /\
  run_total (snd (executeWithRetry w ixs s)) = run_total s.
Proof.
  destruct (executeWithRetry w ixs s) as [tx s'] eqn:E.
  apply executeWithRetry_frame in E as (H1 & H2 & _). auto.
Qed.

Lemma processBatch_totalReclaimed chk (w : World) s batch treasury r s' :
  processBatch chk w s batch treasury false = (r, s') ->
  Store.getTotalReclaimed (run_db s') = Store.getTotalReclaimed (run_db s) +
    match r with inr br => totalLamportsReclaimed br | inl _ => 0 end /\
  run_total s' = run_total s +
    match r with inr br => totalLamportsReclaimed br | inl _ => 0 end.
Proof.
  unfold processBatch. intros H.
  destruct (w_operatorKey w) as [op|]; [|injection H as <- <-; lia].
  destruct (buildLoop chk w (run_db s) (run_total s) op treasury batch) as [[[fs inTx] ixs] logs].
  destruct ixs as [|ix ixs]; [injection H as <- <-; simpl; lia|].
  destruct (executeWithRetry w (ix :: ixs) (add_log logs s)) as [[sig|err] s2] eqn:E;
    pose proof (executeWithRetry_frame _ _ _ _ _ E) as (E1 & E2 & _);
    injection H as <- <-; simpl in *.
  - rewrite commitSuccess_totalReclaimed, E1. split; [lia|].
    destruct (commitSuccess_total w sig inTx s2) as [T _]. rewrite T, E2. lia.
  - rewrite commitFailure_totalReclaimed, E1. split; [lia|].
    destruct (commitFailure_total w err inTx s2) as [T _]. rewrite T, E2. lia.
Qed.

Lemma batchLoop_totalReclaimed chk (w : World) treasury batches result s r s' :
  w_dryRun w = false ->
  batchLoop chk w treasury batches result s = (r, s') ->
  Store.getTotalReclaimed (run_db s') - Store.getTotalReclaimed (run_db s) =
    totalLamportsReclaimed r - totalLamportsReclaimed result /\
  run_total s' - run_total s = totalLamportsReclaimed r - totalLamportsReclaimed result.
Proof.
  intros Hd. revert result s.
  induction batches as [|batch rest IH]; intros result s H; simpl in H.
  - injection H as <- <-. lia.
  - rewrite Hd in H.
    destruct (processBatch chk w s batch treasury false) as [r1 s1] eqn:P.
    apply processBatch_totalReclaimed in P as [P1 P2].
    match type of H with
    | (if ?c then _ else _) = _ => destruct c
    end.
    + injection H as <- <-. destruct r1; simpl in *; lia.
    + apply IH in H as [H1 H2]. destruct r1; simpl in *; lia.
Qed.

(** reclaim.ts, reclaimAccounts with database.ts getTotalReclaimed: in a
    live run that returns a result, the store's total of successful
    reclaims and the safety counter both grow by exactly the result's
    totalLamportsReclaimed. *)
Theorem reclaimAccounts_totalReclaimed chk (w : World) s accounts r s' :
  w_dryRun w = false ->
  reclaimAccounts chk w s accounts = (inr r, s') ->
  Store.getTotalReclaimed (run_db s') = Store.getTotalReclaimed (run_db s) + totalLamportsReclaimed r /\
  run_total s' = run_total s + totalLamportsReclaimed r.
Proof.
  intros Hd H. unfold reclaimAccounts in H.
  destruct accounts as [|a rest]; [injection H as <- <-; simpl; lia|].
  destruct (String.eqb (w_treasuryAddress w) ""); [discriminate|].
  destruct (publicKeyError (w_treasuryAddress w)); [discriminate|].
  destruct (batchLoop chk w (w_treasuryAddress w) (createBatches (a :: rest) MAX_INSTRUCTIONS)
              empty_result s) as [r1 s1] eqn:B.
  injection H as <- <-.
  apply batchLoop_totalReclaimed in B as [B1 B2]; [|exact Hd]. simpl in *. lia.
Qed.

(** reclaim.ts, executeWithRetry: the same instruction list is submitted
    k times, 1 <= k <= 3, with delays of 1000 ms and then 2000 ms between
    attempts, and the store is not touched. Every attempt before the last
    failed. A signature is the one the k-th submission returned. An error
    means three attempts were made and is the third one's message. *)
Theorem executeWithRetry_attempts (w : World) ixs s :
  let r := executeWithRetry w ixs s in
  exists k, (1 <= k <= 3)%nat /\
    run_sent (snd r) = run_sent s ++ repeat ixs k /\
    run_sleeps (snd r) = run_sleeps s ++ firstn (k - 1) [1000; 2000] /\
    run_db (snd r) = run_db s /\
    (forall j, (j < k - 1)%nat -> exists e, w_send w (length (run_sent s) + j) ixs = inr e) /\
    match fst r with
    | TxOk sig => w_send w (length (run_sent s) + (k - 1)) ixs = inl sig
    | TxErr e => k = 3%nat /\ w_send w (length (run_sent s) + 2) ixs = inr e
    end.
Proof.
  intros r. subst r. unfold executeWithRetry. simpl.
  destruct (w_send w (length (run_sent s)) ixs) as [sig|e1] eqn:E1; simpl.
  - exists 1%nat. rewrite Nat.add_0_r. repeat split; auto; [rewrite app_nil_r; reflexivity|].
    intros j Hj; lia.
  - rewrite length_app, Nat.add_1_r.
    destruct (w_send w (S (length (run_sent s))) ixs) as [sig|e2] eqn:E2; simpl.
    + exists 2%nat. repeat split; auto.
      * rewrite <- app_assoc. reflexivity.
      * intros j Hj. assert (j = 0%nat) by lia. subst. rewrite Nat.add_0_r. eauto.
      * replace (length (run_sent s) + (2 - 1))%nat with (S (length (run_sent s))) by lia. exact E2.
    + replace (length ((run_sent s ++ [ixs]) ++ [ixs])) with (S (S (length (run_sent s))))
        by (rewrite !length_app; simpl; lia).
      destruct (w_send w (S (S (length (run_sent s)))) ixs) as [sig|e3] eqn:E3; simpl.
      * exists 3%nat. unfold add_sent, delay; simpl. rewrite <- !app_assoc. repeat split; auto.
        -- intros j Hj. destruct j as [|[|j]]; [rewrite Nat.add_0_r; eauto|rewrite Nat.add_1_r; eauto|lia].
        -- replace (length (run_sent s) + 2)%nat with (S (S (length (run_sent s)))) by lia. exact E3.
      * exists 3%nat. unfold add_sent, delay; simpl. rewrite <- !app_assoc. repeat split; auto.
        -- intros j Hj. destruct j as [|[|j]]; [rewrite Nat.add_0_r; eauto|rewrite Nat.add_1_r; eauto|lia].
        -- replace (length (run_sent s) + 2)%nat with (S (S (length (run_sent s)))) by lia. exact E3.
Qed.

(** reclaim.ts, the first loop of processBatch with createCloseInstruction:
    the instructions match the accounts put in the transaction one for
    one. A token account gets closeAccount(account, treasury, operator);
    any other account gets a transfer of its lamports to the treasury.
    Each such account comes from the batch, was allowed by the gate, and
    has a valid key. If it is a token account, its balance was read and
    is <= 0; otherwise its owner is the system program. *)
Theorem buildLoop_tx_accounts chk (w : World) db total op treasury accounts fs inTx ixs logs :
  buildLoop chk w db total op treasury accounts = (fs, inTx, ixs, logs) ->
  Forall2 (fun a ix =>
             ix = if st_isTokenAccount a then CloseAccountIx (st_pubkey a) treasury op
                  else TransferIx (st_pubkey a) treasury (st_lamports a)) inTx ixs /\
  Forall (fun a =>
            In a accounts /\ allowed (chk w db total a) = true /\
            validPublicKey (st_pubkey a) = true /\
            (st_isTokenAccount a = true ->
               exists amount, w_getAccount w (st_pubkey a) = TokenFound amount /\ amount <= 0) /\
            (st_isTokenAccount a = false -> st_owner a = Some SYSTEM_PROGRAM_ID)) inTx.
Proof.
  revert fs inTx ixs logs.
  induction accounts as [|a rest IH]; intros fs inTx ixs logs H; simpl in H.
  - injection H as <- <- <- <-. split; constructor.
  - destruct (buildLoop chk w db total op treasury rest) as [[[fs0 inTx0] ixs0] logs0].
    destruct (IH _ _ _ _ eq_refl) as [IH1 IH2].
    assert (IH2' : Forall (fun a0 =>
            In a0 (a :: rest) /\ allowed (chk w db total a0) = true /\
            validPublicKey (st_pubkey a0) = true /\
            (st_isTokenAccount a0 = true ->
               exists amount, w_getAccount w (st_pubkey a0) = TokenFound amount /\ amount <= 0) /\
            (st_isTokenAccount a0 = false -> st_owner a0 = Some SYSTEM_PROGRAM_ID)) inTx0).
    { eapply Forall_impl; [exact IH2|]. intros x (Hx1 & Hx2). split; [right; exact Hx1|exact Hx2]. }
    destruct (negb (allowed (chk w db total a))) eqn:A.
    + injection H as <- <- <- <-. auto.
    + apply negb_false_iff in A.
      unfold createCloseInstruction in H.
      destruct (publicKeyError (st_pubkey a)) as [m|] eqn:V; simpl in H;
        [injection H as <- <- <- <-; auto|].
      destruct (st_isTokenAccount a) eqn:T.
      * destruct (w_getAccount w (st_pubkey a)) as [amount| |msg] eqn:G;
          [|injection H as <- <- <- <-; auto|injection H as <- <- <- <-; auto].
        destruct (Z.ltb 0 amount) eqn:L; injection H as <- <- <- <-; [auto|].
        split; [constructor; [rewrite T; reflexivity|exact IH1]|].
        constructor; [|exact IH2'].
        split; [left; reflexivity|]. split; [exact A|]. split; [unfold validPublicKey; rewrite V; reflexivity|].
        split; [intros _; exists amount; split; [exact G|apply Z.ltb_ge; exact L]|congruence].
      * case_bool_decide as S; injection H as <- <- <- <-; [|auto].
        split; [constructor; [rewrite T; reflexivity|exact IH1]|].
        constructor; [|exact IH2'].
        split; [left; reflexivity|]. split; [exact A|]. split; [unfold validPublicKey; rewrite V; reflexivity|].
        split; [congruence|intros _; exact S].
Qed.

Lemma commitSuccess_sent (w : World) sig accs s :
  run_sent (commitSuccess w sig accs s) = run_sent s.
Proof. revert s. induction accs as [|a rest IH]; intros s; simpl; [reflexivity|]. rewrite IH. reflexivity. Qed.

Lemma commitFailure_sent (w : World) err accs s :
  run_sent (commitFailure w err accs s) = run_sent s.
Proof. revert s. induction accs as [|a rest IH]; intros s; simpl; [reflexivity|]. rewrite IH. reflexivity. Qed.

Lemma processBatch_sent_pays chk (w : World) s batch dryRun r s' :
  processBatch chk w s batch (w_treasuryAddress w) dryRun = (r, s') ->
  exists l, run_sent s' = run_sent s ++ l /\
    Forall (fun ixs => ixs <> [] /\ Forall (pays_treasury w) ixs) l.
Proof.
  unfold processBatch. intros H.
  destruct (w_operatorKey w) as [op|] eqn:Hop; [|injection H as <- <-; exists []; rewrite app_nil_r; auto].
  destruct (buildLoop chk w (run_db s) (run_total s) op (w_treasuryAddress w) batch)
    as [[[fs inTx] ixs] logs] eqn:B.
  destruct ixs as [|ix ixs]; [injection H as <- <-; exists []; rewrite app_nil_r; auto|].
  assert (Hp : Forall (pays_treasury w) (ix :: ixs)).
  { apply buildLoop_tx_accounts in B as [B1 _]. clear -B1 Hop.
    induction B1 as [|a x inTx0 ixs0 Hx _ IH]; constructor; [|exact IH].
    subst x. destruct (st_isTokenAccount a); simpl; auto. }
  destruct dryRun; [injection H as <- <-; exists []; rewrite app_nil_r; auto|].
  pose proof (executeWithRetry_attempts w (ix :: ixs) (add_log logs s)) as (k & _ & Hs & _).
  assert (Hl : Forall (fun ixs0 => ixs0 <> [] /\ Forall (pays_treasury w) ixs0) (repeat (ix :: ixs) k)).
  { apply Forall_forall. intros y Hy. apply list_elem_of_In, repeat_spec in Hy. subst y.
    split; [discriminate|exact Hp]. }
  destruct (executeWithRetry w (ix :: ixs) (add_log logs s)) as [[sig|err] s2];
    injection H as <- <-; simpl in Hs.
  - rewrite commitSuccess_sent, Hs. eauto.
  - rewrite commitFailure_sent, Hs. eauto.
Qed.

Lemma batchLoop_sent_pays chk (w : World) batches result s r s' :
  batchLoop chk w (w_treasuryAddress w) batches result s = (r, s') ->
  exists l, run_sent s' = run_sent s ++ l /\
    Forall (fun ixs => ixs <> [] /\ Forall (pays_treasury w) ixs) l.
Proof.
  revert result s. induction batches as [|batch rest IH]; intros result s H; simpl in H.
  - injection H as <- <-. exists []. rewrite app_nil_r. auto.
  - destruct (processBatch chk w s batch (w_treasuryAddress w) (w_dryRun w)) as [r1 s1] eqn:P.
    apply processBatch_sent_pays in P as (l1 & P1 & P2).
    match type of H with
    | (if ?c then _ else _) = _ => destruct c
    end.
    + injection H as <- <-. eauto.
    + apply IH in H as (l2 & H1 & H2). exists (l1 ++ l2).
      rewrite H1, P1, app_assoc. split; [reflexivity|]. apply Forall_app. auto.
Qed.

(** reclaim.ts, reclaimAccounts: every transaction a run submits is
    non-empty, and each of its instructions sends funds to the configured
    treasury: a close names the treasury as destination and the
    operator's key as authority, and a transfer goes to the treasury. *)
Theorem reclaimAccounts_pays_treasury chk (w : World) s accounts r s' :
  reclaimAccounts chk w s accounts = (r, s') ->
  exists l, run_sent s' = run_sent s ++ l /\
    Forall (fun ixs => ixs <> [] /\ Forall (pays_treasury w) ixs) l.
Proof.
  intros H. unfold reclaimAccounts in H.
  destruct accounts as [|a rest]; [injection H as <- <-; exists []; rewrite app_nil_r; auto|].
  destruct (String.eqb (w_treasuryAddress w) ""); [injection H as <- <-; exists []; rewrite app_nil_r; auto|].
  destruct (publicKeyError (w_treasuryAddress w)); [injection H as <- <-; exists []; rewrite app_nil_r; auto|].
  destruct (batchLoop chk w (w_treasuryAddress w) (createBatches (a :: rest) MAX_INSTRUCTIONS)
              empty_result s) as [r1 s1] eqn:B.
  injection H as <- <-. eapply batchLoop_sent_pays. exact B.
Qed.

Lemma update_row_lookup_ne pk f (db : DB) k :
  k <> pk -> sponsored_accounts (Store.update_row pk f db) !! k = sponsored_accounts db !! k.
Proof.
  intros Hk. unfold Store.update_row. destruct (sponsored_accounts db !! pk); [|reflexivity].
  simpl. rewrite lookup_insert_ne; [reflexivity|congruence].
Qed.

Lemma update_row_lookup' pk f (db : DB) k :
  sponsored_accounts (Store.update_row pk f db) !! k =
  if bool_decide (k = pk) then f <$> sponsored_accounts db !! k else sponsored_accounts db !! k.
Proof.
  case_bool_decide as E; [subst; apply update_row_lookup|apply update_row_lookup_ne; exact E].
Qed.

Lemma with_status_idem st lam now a :
  Store.with_status st lam now (Store.with_status st lam now a) = Store.with_status st lam now a.
Proof. destruct a, lam; reflexivity. Qed.

Lemma commitSuccess_db (w : World) sig accs s k :
  sponsored_accounts (run_db (commitSuccess w sig accs s)) !! k =
    (if bool_decide (k ∈ map st_pubkey accs)
     then Store.with_status Reclaimed None (w_now w) <$> sponsored_accounts (run_db s) !! k
     else sponsored_accounts (run_db s) !! k) /\
  reclaim_history (run_db (commitSuccess w sig accs s)) =
    reclaim_history (run_db s) ++
    map (fun a => mkHistory (st_pubkey a) (st_lamports a) HSuccess None (or_null sig) (w_now w)) accs.
Proof.
  revert s. induction accs as [|a rest IH]; intros s.
  - cbn [commitSuccess map]. rewrite app_nil_r. split; [|reflexivity].
    rewrite bool_decide_eq_false_2; [reflexivity|set_solver].
  - cbn [commitSuccess map].
    match goal with |- context [commitSuccess w sig rest ?s1] => destruct (IH s1) as [H1 H2] end.
    split.
    + rewrite H1. cbn [run_db set_db add_log recordReclaim Store.addReclaimHistory sponsored_accounts].
      unfold Store.updateAccountStatus. rewrite update_row_lookup'.
      rewrite (bool_decide_ext (k ∈ st_pubkey a :: map st_pubkey rest) (k = st_pubkey a \/ k ∈ map st_pubkey rest))
        by set_solver.
      case_bool_decide as E1; case_bool_decide as E2; case_bool_decide as E3; try tauto;
        try reflexivity; subst;
        destruct (sponsored_accounts (run_db s) !! st_pubkey a); simpl; try rewrite with_status_idem; reflexivity.
    + rewrite H2. cbn [run_db set_db add_log recordReclaim].
      unfold Store.updateAccountStatus, Store.addReclaimHistory. simpl. rewrite update_row_history.
      rewrite <- app_assoc. reflexivity.
Qed.

Lemma commitFailure_db (w : World) err accs s :
  sponsored_accounts (run_db (commitFailure w err accs s)) = sponsored_accounts (run_db s) /\
  reclaim_history (run_db (commitFailure w err accs s)) =
    reclaim_history (run_db s) ++
    map (fun a => mkHistory (st_pubkey a) 0 HFailed
                    (Some (if String.eqb err "" then "Transaction failed" else err)) None (w_now w)) accs.
Proof.
  revert s. induction accs as [|a rest IH]; intros s.
  - cbn [commitFailure map]. rewrite app_nil_r. auto.
  - cbn [commitFailure map].
    match goal with |- context [commitFailure w err rest ?s1] => destruct (IH s1) as [H1 H2] end.
    rewrite H1, H2. simpl. rewrite <- app_assoc. auto.
Qed.

(** reclaim.ts, processBatch in a live run: its store writes concern only
    the accounts of the batch put in the transaction. On a confirmed
    transaction each of their rows becomes 'reclaimed' with lastChecked =
    now, a success history entry is appended per account, and these are
    exactly the successful records. On a failed transaction no row
    changes, one failed history entry is appended per account, and there
    are no successful records. *)
Theorem processBatch_store_effect chk (w : World) s batch treasury br s' :
  processBatch chk w s batch treasury false = (inr br, s') ->
  exists inTx, incl inTx batch /\
    ((exists sig, successful br = map (okRec sig) inTx /\
        reclaim_history (run_db s') = reclaim_history (run_db s) ++
          map (fun a => mkHistory (st_pubkey a) (st_lamports a) HSuccess None (or_null sig) (w_now w)) inTx /\
        forall k, sponsored_accounts (run_db s') !! k =
          if bool_decide (k ∈ map st_pubkey inTx)
          then Store.with_status Reclaimed None (w_now w) <$> sponsored_accounts (run_db s) !! k
          else sponsored_accounts (run_db s) !! k)
     \/
     (successful br = [] /\
        sponsored_accounts (run_db s') = sponsored_accounts (run_db s) /\
        exists reason_, reclaim_history (run_db s') = reclaim_history (run_db s) ++
          map (fun a => mkHistory (st_pubkey a) 0 HFailed (Some reason_) None (w_now w)) inTx)).
Proof.
  unfold processBatch. intros H.
  destruct (w_operatorKey w) as [op|]; [|discriminate].
  destruct (buildLoop chk w (run_db s) (run_total s) op treasury batch) as [[[fs inTx] ixs] logs] eqn:B.
  apply buildLoop_tx_accounts in B as [B1 B2].
  assert (Hincl : incl inTx batch).
  { intros a Ha. rewrite List.Forall_forall in B2. apply (B2 a Ha). }
  destruct ixs as [|ix ixs].
  - inversion B1; subst. injection H as <- <-. exists []. split; [apply incl_nil_l|].
    right. simpl. rewrite app_nil_r. eauto.
  - destruct (executeWithRetry w (ix :: ixs) (add_log logs s)) as [[sig|err] s2] eqn:E;
      pose proof (executeWithRetry_db w (ix :: ixs) (add_log logs s)) as [E1 _];
      rewrite E in E1; simpl in E1;
      injection H as <- <-; exists inTx; split; auto.
    + left. exists sig. split; [reflexivity|].
      split.
      * destruct (commitSuccess_db w sig inTx s2 "") as [_ ->]. rewrite E1. reflexivity.
      * intros k. destruct (commitSuccess_db w sig inTx s2 k) as [-> _]. rewrite E1. reflexivity.
    + right. split; [reflexivity|].
      destruct (commitFailure_db w err inTx s2) as [-> ->]. rewrite E1. eauto.
Qed.

Import Scanner.

Lemma analyzeAccount_out (w : World) db pk info :
  st_pubkey (fst (analyzeAccount w db pk info)) = pk /\
  (st_isReclaimable (fst (analyzeAccount w db pk info)) = true ->
   reclaimable_ok w (fst (analyzeAccount w db pk info))).
Proof.
  unfold analyzeAccount, reclaimable_ok.
  destruct info as [i|]; simpl; [|split; [reflexivity|discriminate]].
  destruct (checkSafetyRules w db pk i); simpl; [split; [reflexivity|discriminate]|].
  destruct (String.eqb (ai_owner i) SYSTEM_PROGRAM_ID); simpl; [split; [reflexivity|discriminate]|].
  destruct (String.eqb (ai_owner i) TOKEN_PROGRAM_ID) eqn:T; simpl; [|split; [reflexivity|discriminate]].
  destruct (ai_data i) as [d|]; simpl; [|split; [reflexivity|discriminate]].
  case_bool_decide as E; simpl; split; try reflexivity; try discriminate.
  intros _. rewrite E. auto 6.
Qed.

Lemma scanEach_out (P : string -> AccountStatus -> Prop) f db pks :
  (forall db pk, P pk (fst (f db pk))) ->
  Forall2 P pks (fst (scanEach f db pks)).
Proof.
  intros Hf. revert db. induction pks as [|pk rest IH]; intros db; simpl; [constructor|].
  destruct (f db pk) as [st db1] eqn:E. destruct (scanEach f db1 rest) as [sts db2] eqn:E2.
  simpl. constructor.
  - specialize (Hf db pk). rewrite E in Hf. exact Hf.
  - specialize (IH db1). rewrite E2 in IH. exact IH.
Qed.

Lemma Forall2_in_r {A B} (P : A -> B -> Prop) l1 l2 y :
  Forall2 P l1 l2 -> In y l2 -> exists x, In x l1 /\ P x y.
Proof.
  induction 1 as [|x y' l1 l2 Hp _ IH]; simpl; [tauto|].
  intros [->|Hin]; [eauto|]. destruct (IH Hin) as (x' & ? & ?). eauto.
Qed.

Lemma scanBatch_out (w : World) rpc db batch sts db' :
  scanBatch w rpc db batch = Some (sts, db') ->
  Forall2 (scan_out_ok w) (map sa_pubkey batch) sts.
Proof.
  unfold scanBatch. intros H.
  destruct (forallb validPublicKey (map sa_pubkey batch)); simpl in H; [|discriminate].
  destruct (rpc_multiOk rpc (map sa_pubkey batch)); injection H as H;
    apply (f_equal fst) in H; simpl in H; subst sts.
  - apply scanEach_out. intros db0 pk. unfold scanOne.
    pose proof (analyzeAccount_out w db0 pk (rpc_account rpc pk)) as A.
    destruct (analyzeAccount w db0 pk (rpc_account rpc pk)) as [st db1].
    destruct (rpc_account rpc pk); exact A.
  - apply scanEach_out. intros db0 pk. unfold scanSingleAccount.
    destruct (validPublicKey pk); [destruct (rpc_singleOk rpc pk)|]; simpl;
      try (split; [reflexivity|discriminate]).
    apply analyzeAccount_out.
Qed.

Lemma scanBatch_valid (w : World) rpc db batch :
  forallb validPublicKey (map sa_pubkey batch) = true ->
  exists sts db', scanBatch w rpc db batch = Some (sts, db').
Proof.
  intros V. unfold scanBatch. rewrite V. simpl.
  destruct (rpc_multiOk rpc (map sa_pubkey batch)); eexists _, _; rewrite <- surjective_pairing; reflexivity.
Qed.

Lemma filter_length_split {A} (p : A -> bool) (l : list A) :
  (length (List.filter p l) + length (List.filter (fun x => negb (p x)) l) = length l)%nat.
Proof. induction l as [|x l IH]; simpl; [reflexivity|]. destruct (p x); simpl; lia. Qed.

Lemma scanBatch_none (w : World) rpc db batch :
  scanBatch w rpc db batch = None -> forallb validPublicKey (map sa_pubkey batch) = false.
Proof.
  intros H. destruct (forallb validPublicKey (map sa_pubkey batch)) eqn:V; [|reflexivity].
  destruct (scanBatch_valid w rpc db batch V) as (? & ? & B). congruence.
Qed.

Lemma batchKeyError_msg pks :
  forallb validPublicKey pks = false -> key_batch_error ("Batch error: " ++ batchKeyError pks)%string.
Proof.
  induction pks as [|pk rest IH]; simpl; [discriminate|].
  unfold validPublicKey at 1. destruct (publicKeyError pk) as [m|] eqn:E; simpl.
  - intros _. destruct (publicKeyError_msg pk m E) as [-> | ->]; unfold key_batch_error; auto.
  - exact IH.
Qed.

Lemma scanLoop_accounting (w : World) rpc batches result db r db' :
  scanLoop w rpc batches result db = (r, db') ->
  sr_total r = sr_total result /\
  (exists l, sr_errors r = sr_errors result ++ l /\ Forall key_batch_error l) /\
  (length (sr_reclaimable r) + length (sr_skipped r) <=
     length (sr_reclaimable result) + length (sr_skipped result) + length (concat batches))%nat /\
  (forallb validPublicKey (map sa_pubkey (concat batches)) = true ->
     sr_errors r = sr_errors result /\
     (length (sr_reclaimable r) + length (sr_skipped r) =
        length (sr_reclaimable result) + length (sr_skipped result) + length (concat batches))%nat) /\
  (forall st, In st (sr_reclaimable r) -> In st (sr_reclaimable result) \/
     (In (st_pubkey st) (map sa_pubkey (concat batches)) /\ st_isReclaimable st = true /\
      reclaimable_ok w st)) /\
  (forall st, In st (sr_skipped r) -> In st (sr_skipped result) \/
     (In (st_pubkey st) (map sa_pubkey (concat batches)) /\ st_isReclaimable st = false)).
Proof.
  revert result db. induction batches as [|batch rest IH]; intros result db H; simpl in H.
  - injection H as <- <-. simpl. split; [reflexivity|].
    split; [exists []; rewrite app_nil_r; split; [reflexivity|constructor]|].
    split; [lia|]. split; [intros _; split; [reflexivity|lia]|]. auto.
  - simpl. rewrite map_app, forallb_app.
    destruct (scanBatch w rpc db batch) as [[sts db1]|] eqn:B.
    + pose proof (scanBatch_out _ _ _ _ _ _ B) as O.
      apply IH in H as (H1 & (l & H2 & Hl) & H3 & H4 & H5 & H6). simpl in *.
      assert (Hlen : length sts = length batch).
      { apply Forall2_length in O. rewrite length_map in O. lia. }
      pose proof (filter_length_split st_isReclaimable sts) as F.
      rewrite !length_app in *.
      split; [exact H1|]. split; [exists l; rewrite H2; split; [reflexivity|exact Hl]|].
      split; [lia|].
      split; [|split].
      * intros V. apply andb_prop in V as [_ V].
        destruct (H4 V) as [-> E]. split; [reflexivity|]. lia.
      * intros st Hst. destruct (H5 st Hst) as [Hin|(Hin & R & Ok)].
        2: { right. split; [|auto]. apply in_app_iff. auto. }
        apply in_app_iff in Hin as [Hin|Hin]; [left; exact Hin|].
        apply filter_In in Hin as [Hin R].
        destruct (Forall2_in_r _ _ _ _ O Hin) as (pk & Hpk & E & Ok).
        right. rewrite in_app_iff, E. auto.
      * intros st Hst. destruct (H6 st Hst) as [Hin|(Hin & R)].
        2: { right. split; [|auto]. apply in_app_iff. auto. }
        apply in_app_iff in Hin as [Hin|Hin]; [left; exact Hin|].
        apply filter_In in Hin as [Hin R].
        destruct (Forall2_in_r _ _ _ _ O Hin) as (pk & Hpk & E & _).
        right. rewrite in_app_iff, E. split; [auto|]. destruct (st_isReclaimable st); auto.
    + pose proof (scanBatch_none w rpc db batch B) as Vb.
      apply IH in H as (H1 & (l & H2 & Hl) & H3 & H4 & H5 & H6). simpl in *.
      split; [exact H1|].
      split; [eexists; rewrite H2, <- app_assoc; split; [reflexivity|]|].
      { constructor; [|exact Hl]. apply batchKeyError_msg. exact Vb. }
      rewrite !length_app in *. split; [lia|].
      split; [|split].
      * intros V. apply andb_prop in V as [V _].
        destruct (scanBatch_valid w rpc db batch V) as (? & ? & B'). congruence.
      * intros st Hst. destruct (H5 st Hst) as [Hin|(Hin & R & Ok)]; [auto|].
        right. rewrite in_app_iff. auto.
      * intros st Hst. destruct (H6 st Hst) as [Hin|(Hin & R)]; [auto|].
        right. rewrite in_app_iff. auto.
Qed.

Lemma scanAccounts_loop (w : World) rpc n db r db' :
  scanAccounts w rpc n db = Some (r, db') ->
  scanLoop w rpc (createBatches (Store.getActiveAccounts db) n)
    (mkScanResult (length (Store.getActiveAccounts db)) [] [] []) db = (r, db') /\
  concat (createBatches (Store.getActiveAccounts db) n) = Store.getActiveAccounts db.
Proof.
  unfold scanAccounts. intros H.
  destruct n as [|n'].
  - destruct (Store.getActiveAccounts db) eqn:E; [|discriminate].
    injection H as <- <-. split; reflexivity.
  - injection H as H. split; [exact H|]. apply createBatches_concat. lia.
Qed.

(** scanner.ts, scanAccounts with analyzeAccount: every status in
    [reclaimable] is an existing token account of an active tracked key,
    with isReclaimable and operatorCanClose set, no skip reason, and the
    operator's key as its close authority. Every status in [skipped]
    belongs to an active tracked key and is not reclaimable. *)
Theorem scanAccounts_reclaimable (w : World) rpc n db r db' :
  scanAccounts w rpc n db = Some (r, db') ->
  (forall st, In st (sr_reclaimable r) ->
     In (st_pubkey st) (map sa_pubkey (Store.getActiveAccounts db)) /\
     st_isReclaimable st = true /\ st_isTokenAccount st = true /\
     st_operatorCanClose st = true /\ st_skipReason st = None /\
     st_closeAuthority st = w_operatorKey w /\ st_exists st = true) /\
  (forall st, In st (sr_skipped r) ->
     In (st_pubkey st) (map sa_pubkey (Store.getActiveAccounts db)) /\
     st_isReclaimable st = false).
Proof.
  intros H. apply scanAccounts_loop in H as [H C].
  apply scanLoop_accounting in H as (_ & _ & _ & _ & H5 & H6). rewrite C in H5, H6.
  split.
  - intros st Hst. destruct (H5 st Hst) as [[]|(? & ? & ? & ? & ? & ? & ?)]. auto 7.
  - intros st Hst. destruct (H6 st Hst) as [[]|?]. auto.
Qed.

(** scanner.ts, scanAccounts: [total] is the number of active accounts.
    Each error is 'Batch error: ' followed by a message of
    `new PublicKey`: 'Non-base58 character' or 'Invalid public key
    input'. Reclaimable
    plus skipped never exceeds total. When every active key is valid,
    there are no errors and every active account gets exactly one
    status. *)
Theorem scanAccounts_accounting (w : World) rpc n db r db' :
  scanAccounts w rpc n db = Some (r, db') ->
  sr_total r = length (Store.getActiveAccounts db) /\
  Forall key_batch_error (sr_errors r) /\
  (length (sr_reclaimable r) + length (sr_skipped r) <= sr_total r)%nat /\
  (forallb validPublicKey (map sa_pubkey (Store.getActiveAccounts db)) = true ->
     sr_errors r = [] /\ (length (sr_reclaimable r) + length (sr_skipped r) = sr_total r)%nat).
Proof.
  intros H. apply scanAccounts_loop in H as [H C].
  apply scanLoop_accounting in H as (H1 & H2 & H3 & H4 & _). rewrite C in H3, H4.
  simpl in *. split; [exact H1|]. split; [destruct H2 as (l & -> & Hl); exact Hl|]. split; [lia|].
  intros V. destruct (H4 V) as [E L]. split; [exact E|]. lia.
Qed.

Lemma row_frame_refl pk db : row_frame pk db db.
Proof. unfold row_frame. auto. Qed.

Lemma row_frame_trans pk db1 db2 db3 :
  row_frame pk db1 db2 -> row_frame pk db2 db3 -> row_frame pk db1 db3.
Proof.
  unfold row_frame. intros (A1 & B1 & C1 & D1) (A2 & B2 & C2 & D2).
  split; [congruence|]. split; [congruence|]. split; [|tauto].
  intros k Hk. rewrite C2, C1; auto.
Qed.

Lemma update_row_frame pk f db : row_frame pk db (Store.update_row pk f db).
Proof.
  unfold Store.update_row.
  destruct (sponsored_accounts db !! pk) eqn:E; simpl; [|apply row_frame_refl].
  unfold row_frame. simpl.
  split; [reflexivity|]. split; [reflexivity|]. split.
  - intros k Hk. rewrite lookup_insert_ne; congruence.
  - rewrite lookup_insert_eq; try rewrite E. split; intros _; eexists; reflexivity.
Qed.

Lemma markAsReclaimable_frame now pk db : row_frame pk db (Store.markAsReclaimable now pk db).
Proof.
  unfold Store.markAsReclaimable.
  destruct (sponsored_accounts db !! pk) as [a|] eqn:E; [|apply row_frame_refl].
  destruct (sa_reclaimableSince a); simpl; [apply row_frame_refl|].
  unfold row_frame. simpl.
  split; [reflexivity|]. split; [reflexivity|]. split.
  - intros k Hk. rewrite lookup_insert_ne; congruence.
  - rewrite lookup_insert_eq; try rewrite E. split; intros _; eexists; reflexivity.
Qed.

Lemma markAsReclaimable_fields now pk db :
  scan_fields <$> sponsored_accounts (Store.markAsReclaimable now pk db) !! pk =
  scan_fields <$> sponsored_accounts db !! pk.
Proof.
  unfold Store.markAsReclaimable.
  destruct (sponsored_accounts db !! pk) as [a|] eqn:E; [|rewrite E; reflexivity].
  destruct (sa_reclaimableSince a); simpl; [rewrite E; reflexivity|].
  rewrite lookup_insert_eq. reflexivity.
Qed.

Lemma analyzeAccount_frame (w : World) db pk info :
  row_frame pk db (snd (analyzeAccount w db pk info)) /\
  (info <> None ->
   scan_fields <$> sponsored_accounts (snd (analyzeAccount w db pk info)) !! pk =
   scan_fields <$> sponsored_accounts db !! pk).
Proof.
  unfold analyzeAccount.
  destruct info as [i|]; simpl.
  2: { split; [apply update_row_frame|congruence]. }
  split; [|intros _];
  (destruct (checkSafetyRules w db pk i); simpl; [try apply row_frame_refl; try reflexivity|]);
  (destruct (String.eqb (ai_owner i) SYSTEM_PROGRAM_ID); simpl; [try apply row_frame_refl; try reflexivity|]);
  (destruct (String.eqb (ai_owner i) TOKEN_PROGRAM_ID); simpl; [|try apply row_frame_refl; try reflexivity]);
  (destruct (ai_data i) as [d|]; simpl; [|try apply row_frame_refl; try reflexivity]);
  (case_bool_decide; simpl).
  - eapply row_frame_trans; [apply markAsReclaimable_frame|apply update_row_frame].
  - eapply row_frame_trans; apply update_row_frame.
  - unfold Store.updateAccountAuthority. rewrite update_row_lookup.
    pose proof (markAsReclaimable_fields (w_now w) pk db) as M. rewrite <- M.
    destruct (sponsored_accounts (Store.markAsReclaimable (w_now w) pk db) !! pk); reflexivity.
  - unfold Store.updateAccountAuthority, Store.clearReclaimableState.
    rewrite !update_row_lookup. destruct (sponsored_accounts db !! pk); reflexivity.
Qed.

Lemma scanOne_frame (w : World) db pk info :
  row_frame pk db (snd (scanOne w db pk info)) /\
  forall a, sponsored_accounts (snd (scanOne w db pk info)) !! pk = Some a ->
    scan_fields a = (Some (w_now w), match info with Some i => ai_lamports i | None => 0 end,
                     match info with Some _ => Active | None => Closed end).
Proof.
  unfold scanOne. pose proof (analyzeAccount_frame w db pk info) as [F _].
  destruct (analyzeAccount w db pk info) as [st db1]. simpl in F.
  destruct info as [i|]; simpl; (split; [eapply row_frame_trans; [exact F|apply update_row_frame]|]);
    unfold Store.updateAccountStatus; rewrite update_row_lookup;
    intros a Ha; destruct (sponsored_accounts db1 !! pk); simpl in Ha; inversion Ha; reflexivity.
Qed.

Lemma scanEach_post (f : DB -> string -> AccountStatus * DB) (Q : string -> SponsoredAccount -> Prop) db pks :
  (forall db pk, row_frame pk db (snd (f db pk)) /\
     forall a, sponsored_accounts (snd (f db pk)) !! pk = Some a -> Q pk a) ->
  reclaim_history (snd (scanEach f db pks)) = reclaim_history db /\
  whitelist (snd (scanEach f db pks)) = whitelist db /\
  forall k, (k ∉ pks -> sponsored_accounts (snd (scanEach f db pks)) !! k = sponsored_accounts db !! k) /\
    (is_Some (sponsored_accounts (snd (scanEach f db pks)) !! k) <-> is_Some (sponsored_accounts db !! k)) /\
    (k ∈ pks -> forall a, sponsored_accounts (snd (scanEach f db pks)) !! k = Some a -> Q k a).
Proof.
  intros Hf. revert db. induction pks as [|pk rest IH]; intros db; simpl.
  - split; [reflexivity|]. split; [reflexivity|]. intros k. split; [auto|]. split; [tauto|].
    intros Hk. apply elem_of_nil in Hk. contradiction.
  - destruct (Hf db pk) as [(F1 & F2 & F3 & F4) Q1].
    destruct (f db pk) as [st db1] eqn:E. simpl in *.
    destruct (IH db1) as (I1 & I2 & I3).
    destruct (scanEach f db1 rest) as [sts db2]. simpl in *.
    split; [congruence|]. split; [congruence|]. intros k.
    destruct (I3 k) as (J1 & J2 & J3).
    destruct (decide (k = pk)) as [->|Hne].
    + split; [set_solver|]. split; [rewrite J2; exact F4|].
      intros _. destruct (decide (pk ∈ rest)) as [Hin|Hnin]; [exact (J3 Hin)|].
      rewrite (J1 Hnin). exact Q1.
    + split; [intros Hk; rewrite J1 by set_solver; apply F3; exact Hne|].
      split; [rewrite J2, F3 by exact Hne; tauto|].
      intros Hk. apply J3. set_solver.
Qed.

Lemma scanEach_keep (f : DB -> string -> AccountStatus * DB) (P : string -> Prop) db pks :
  (forall db pk, row_frame pk db (snd (f db pk)) /\
     (P pk -> scan_fields <$> sponsored_accounts (snd (f db pk)) !! pk =
              scan_fields <$> sponsored_accounts db !! pk)) ->
  forall k, P k -> scan_fields <$> sponsored_accounts (snd (scanEach f db pks)) !! k =
                   scan_fields <$> sponsored_accounts db !! k.
Proof.
  intros Hf k Hk. revert db. induction pks as [|pk rest IH]; intros db; simpl; [reflexivity|].
  destruct (Hf db pk) as [(_ & _ & F3 & _) K].
  destruct (f db pk) as [st db1] eqn:E. simpl in *.
  specialize (IH db1). destruct (scanEach f db1 rest) as [sts db2]. simpl in *.
  rewrite IH. destruct (decide (k = pk)) as [->|Hne]; [exact (K Hk)|rewrite F3 by exact Hne; reflexivity].
Qed.

Lemma scanSingleAccount_frame (w : World) rpc db pk :
  row_frame pk db (snd (scanSingleAccount w rpc db pk)) /\
  (rpc_account rpc pk <> None ->
   scan_fields <$> sponsored_accounts (snd (scanSingleAccount w rpc db pk)) !! pk =
   scan_fields <$> sponsored_accounts db !! pk).
Proof.
  unfold scanSingleAccount.
  destruct (validPublicKey pk); [destruct (rpc_singleOk rpc pk)|]; simpl;
    try (split; [apply row_frame_refl|reflexivity]).
  apply analyzeAccount_frame.
Qed.

(** scanner.ts, scanBatch when getMultipleAccountsInfo succeeds: rows
    outside the batch, the history and the whitelist are unchanged, and
    no row is created or deleted. Each tracked key of the batch is stamped:
    lastChecked = now, and status and lamports from the node (active with
    its balance, or closed with 0 when the account is gone). *)
Theorem scanBatch_store_normal (w : World) rpc db batch sts db' :
  rpc_multiOk rpc (map sa_pubkey batch) = true ->
  scanBatch w rpc db batch = Some (sts, db') ->
  reclaim_history db' = reclaim_history db /\ whitelist db' = whitelist db /\
  forall k,
    (k ∉ map sa_pubkey batch -> sponsored_accounts db' !! k = sponsored_accounts db !! k) /\
    (is_Some (sponsored_accounts db' !! k) <-> is_Some (sponsored_accounts db !! k)) /\
    (k ∈ map sa_pubkey batch -> forall a, sponsored_accounts db' !! k = Some a ->
       sa_lastChecked a = Some (w_now w) /\
       sa_lamports a = match rpc_account rpc k with Some i => ai_lamports i | None => 0 end /\
       sa_status a = match rpc_account rpc k with Some _ => Active | None => Closed end).
Proof.
  unfold scanBatch. intros M H.
  destruct (forallb validPublicKey (map sa_pubkey batch)); simpl in H; [|discriminate].
  rewrite M in H. injection H as H. apply (f_equal snd) in H. simpl in H. subst db'.
  destruct (scanEach_post (fun db pk => scanOne w db pk (rpc_account rpc pk))
              (fun k a => sa_lastChecked a = Some (w_now w) /\
                 sa_lamports a = match rpc_account rpc k with Some i => ai_lamports i | None => 0 end /\
                 sa_status a = match rpc_account rpc k with Some _ => Active | None => Closed end)
              db (map sa_pubkey batch)) as (H1 & H2 & H3).
  { intros db0 pk. destruct (scanOne_frame w db0 pk (rpc_account rpc pk)) as [F Q].
    split; [exact F|]. intros a Ha. specialize (Q a Ha). unfold scan_fields in Q.
    injection Q as -> -> ->. auto. }
  auto.
Qed.

(** scanner.ts, scanBatch when getMultipleAccountsInfo throws: the
    one-by-one fallback never writes lastChecked, lamports or status of an
    account that exists on chain, so those columns keep their old values. *)
Theorem scanBatch_store_fallback (w : World) rpc db batch sts db' :
  rpc_multiOk rpc (map sa_pubkey batch) = false ->
  scanBatch w rpc db batch = Some (sts, db') ->
  forall k, rpc_account rpc k <> None ->
    (fun a => (sa_lastChecked a, sa_lamports a, sa_status a)) <$> sponsored_accounts db' !! k =
    (fun a => (sa_lastChecked a, sa_lamports a, sa_status a)) <$> sponsored_accounts db !! k.
Proof.
  unfold scanBatch. intros M H k Hk.
  destruct (forallb validPublicKey (map sa_pubkey batch)); simpl in H; [|discriminate].
  rewrite M in H. injection H as H. apply (f_equal snd) in H. simpl in H. subst db'.
  apply (scanEach_keep _ (fun pk => rpc_account rpc pk <> None)); [|exact Hk].
  intros db0 pk. apply scanSingleAccount_frame.
Qed.

Lemma scanBatch_frame (w : World) rpc db batch sts db' :
  scanBatch w rpc db batch = Some (sts, db') ->
  reclaim_history db' = reclaim_history db /\ whitelist db' = whitelist db /\
  forall k,
    (k ∉ map sa_pubkey batch -> sponsored_accounts db' !! k = sponsored_accounts db !! k) /\
    (is_Some (sponsored_accounts db' !! k) <-> is_Some (sponsored_accounts db !! k)).
Proof.
  unfold scanBatch. intros H.
  destruct (forallb validPublicKey (map sa_pubkey batch)); simpl in H; [|discriminate].
  destruct (rpc_multiOk rpc (map sa_pubkey batch));
    injection H as H; apply (f_equal snd) in H; simpl in H; subst db'.
  - destruct (scanEach_post (fun db pk => scanOne w db pk (rpc_account rpc pk)) (fun _ _ => True)
                db (map sa_pubkey batch)) as (H1 & H2 & H3).
    { intros db0 pk. split; [apply scanOne_frame|auto]. }
    split; [exact H1|]. split; [exact H2|]. intros k. destruct (H3 k) as (? & ? & _). auto.
  - destruct (scanEach_post (scanSingleAccount w rpc) (fun _ _ => True)
                db (map sa_pubkey batch)) as (H1 & H2 & H3).
    { intros db0 pk. split; [apply scanSingleAccount_frame|auto]. }
    split; [exact H1|]. split; [exact H2|]. intros k. destruct (H3 k) as (? & ? & _). auto.
Qed.

Lemma scanLoop_frame (w : World) rpc batches result db r db' :
  scanLoop w rpc batches result db = (r, db') ->
  reclaim_history db' = reclaim_history db /\ whitelist db' = whitelist db /\
  forall k,
    (k ∉ map sa_pubkey (concat batches) -> sponsored_accounts db' !! k = sponsored_accounts db !! k) /\
    (is_Some (sponsored_accounts db' !! k) <-> is_Some (sponsored_accounts db !! k)).
Proof.
  revert result db. induction batches as [|batch rest IH]; intros result db H; simpl in H.
  - injection H as <- <-. split; [reflexivity|]. split; [reflexivity|]. tauto.
  - destruct (scanBatch w rpc db batch) as [[sts db1]|] eqn:B.
    + apply scanBatch_frame in B as (B1 & B2 & B3).
      apply IH in H as (H1 & H2 & H3).
      split; [congruence|]. split; [congruence|]. intros k.
      destruct (B3 k) as [Ba Bb], (H3 k) as [Ha Hb]. simpl. rewrite map_app.
      split; [|tauto]. intros Hk. rewrite Ha; [|set_solver]. apply Ba. set_solver.
    + apply IH in H as (H1 & H2 & H3). split; [exact H1|]. split; [exact H2|].
      intros k. destruct (H3 k). simpl. rewrite map_app. split; [|tauto].
      intros Hk. apply H. set_solver.
Qed.

(** scanner.ts, scanAccounts: a scan neither creates nor deletes rows and
    leaves the history and the whitelist alone. It only writes rows whose
    key is the pubkey of an active account. *)
Theorem scanAccounts_store_frame (w : World) rpc n db r db' :
  scanAccounts w rpc n db = Some (r, db') ->
  reclaim_history db' = reclaim_history db /\ whitelist db' = whitelist db /\
  forall k,
    (is_Some (sponsored_accounts db' !! k) <-> is_Some (sponsored_accounts db !! k)) /\
    (k ∉ map sa_pubkey (Store.getActiveAccounts db) ->
       sponsored_accounts db' !! k = sponsored_accounts db !! k).
Proof.
  intros H. apply scanAccounts_loop in H as [H C].
  apply scanLoop_frame in H as (H1 & H2 & H3). rewrite C in H3.
  split; [exact H1|]. split; [exact H2|]. intros k. destruct (H3 k). auto.
Qed.

Lemma importRows_cases (w : World) data :
  match Kora.importRows w data with
  | [] => existsb importable data = false
  | a :: _ => existsb importable data = true /\ Store.ai_reclaimableSince a = Store.Undefined
  end.
Proof.
  induction data as [|item rest IH]; simpl; [reflexivity|].
  destruct (Kora.ia_pubkey item) as [pk|] eqn:Q.
  - assert (Hi : importable item = import_ok pk) by (unfold importable; rewrite Q; reflexivity).
    rewrite Hi. unfold import_ok. destruct (String.eqb pk ""); simpl; [exact IH|].
    destruct (validPublicKey pk); simpl; [split; reflexivity|exact IH].
  - assert (Hi : importable item = false) by (unfold importable; rewrite Q; reflexivity).
    rewrite Hi. exact IH.
Qed.

(** kora.ts, importFromFile (after parsing): when no entry has a
    non-empty valid pubkey it returns 0 and the store is unchanged.
    Otherwise the objects it pushes leave reclaimableSince undefined, so
    addAccountsBatch throws sql.js's binding error at the first INSERT:
    the import fails and the store is unchanged. *)
Theorem importFromFile_spec (w : World) data (db : DB) :
  Kora.importFromFile w data db =
    (if existsb importable data then inl Store.SQLJS_BIND_UNDEFINED else inr 0%nat, db).
Proof.
  unfold Kora.importFromFile. pose proof (importRows_cases w data) as C.
  destruct (Kora.importRows w data) as [|a rest].
  - rewrite C. reflexivity.
  - destruct C as [-> R]. simpl. unfold Store.insertInput. rewrite R. reflexivity.
Qed.

(** kora.ts, addAccount: with an invalid pubkey it throws 'Invalid
    pubkey format: <pubkey>'; with a valid one the object it passes
    leaves reclaimableSince undefined and database.addAccount throws
    sql.js's binding error. It never adds the account. *)
Theorem addAccount_throws (w : World) pubkey programOwner sponsorSig (db : DB) :
  Kora.addAccount w pubkey programOwner sponsorSig db =
    inl (if validPublicKey pubkey then Store.SQLJS_BIND_UNDEFINED
         else ("Invalid pubkey format: " ++ pubkey)%string).
Proof. unfold Kora.addAccount. destruct (validPublicKey pubkey); reflexivity. Qed.

Lemma breakdown_fold (l : list SponsoredAccount) c n :
  fold_left (fun '(canClose, cannotClose) acc =>
               if Store.state_eqb (sa_status acc) Active then
                 if sa_operatorCanClose acc then (S canClose, cannotClose)
                 else (canClose, S cannotClose)
               else (canClose, cannotClose)) l (c, n) =
  (c + length (List.filter (fun a => Store.state_eqb (sa_status a) Active && sa_operatorCanClose a) l),
   n + length (List.filter (fun a => Store.state_eqb (sa_status a) Active && negb (sa_operatorCanClose a)) l))%nat.
Proof.
  revert c n. induction l as [|a l IH]; intros c n; simpl; [f_equal; lia|].
  destruct (Store.state_eqb (sa_status a) Active), (sa_operatorCanClose a); simpl;
    rewrite IH; f_equal; lia.
Qed.

Lemma filter_and_split {A} (p q : A -> bool) (l : list A) :
  (length (List.filter (fun a => p a && q a) l) + length (List.filter (fun a => p a && negb (q a)) l) =
   length (List.filter p l))%nat.
Proof.
  induction l as [|a l IH]; simpl; [reflexivity|].
  destruct (p a), (q a); simpl; lia.
Qed.

(** database.ts, Dashboard.getAuthorityBreakdown: canClose counts the
    active accounts the operator can close, and canClose + cannotClose
    equals the active count of getAccountCount. *)
Theorem getAuthorityBreakdown_spec (db : DB) :
  let '(canClose, cannotClose) := Dashboard.getAuthorityBreakdown db in
  canClose = length (List.filter (fun a => sa_operatorCanClose a) (Store.getActiveAccounts db)) /\
  (canClose + cannotClose)%nat = Store.c_active (Store.getAccountCount db).
Proof.
  unfold Dashboard.getAuthorityBreakdown. rewrite breakdown_fold. simpl.
  split.
  - unfold Store.getActiveAccounts. induction (Store.getAllAccounts db) as [|a l IH]; simpl; [reflexivity|].
    destruct (Store.state_eqb (sa_status a) Active); simpl; [|exact IH].
    destruct (sa_operatorCanClose a); simpl; rewrite ?IH; reflexivity.
  - unfold Store.countStatus. apply filter_and_split.
Qed.

(** ** Witnesses of the properties at concrete inputs *)


Lemma createBatches_shape_witness :
  (0 < 10)%nat /\ concat (createBatches Scenarios.elevenAccounts 10) = Scenarios.elevenAccounts.
Proof. split; [lia|]. apply (createBatches_shape Scenarios.elevenAccounts 10). lia. Defined.

Lemma reclaimAccounts_totalReclaimed_witness :
  Store.getTotalReclaimed (run_db (snd Scenarios.c4_run)) =
    Store.getTotalReclaimed (run_db (Scenarios.run0 Scenarios.db_empty)) +
    totalLamportsReclaimed Scenarios.c4_br /\
  run_total (snd Scenarios.c4_run) =
    run_total (Scenarios.run0 Scenarios.db_empty) + totalLamportsReclaimed Scenarios.c4_br.
Proof.
  apply (reclaimAccounts_totalReclaimed Safety.checkAccount_v2 Scenarios.w_live
           (Scenarios.run0 Scenarios.db_empty) Scenarios.elevenAccounts).
  - reflexivity.
  - vm_compute. reflexivity.
Defined.

Lemma buildLoop_tx_accounts_witness :
  Forall2 (fun a ix =>
             ix = if st_isTokenAccount a then CloseAccountIx (st_pubkey a) (demoKey "Treas111") "Oper111"
                  else TransferIx (st_pubkey a) (demoKey "Treas111") (st_lamports a))
    Scenarios.c7_batch Scenarios.c7_ixs.
Proof.
  apply (proj1 (buildLoop_tx_accounts Safety.checkAccount_v2 Scenarios.w_live Scenarios.db_empty 0
                  "Oper111" (demoKey "Treas111") Scenarios.c7_batch [] Scenarios.c7_batch Scenarios.c7_ixs []
                  ltac:(vm_compute; reflexivity))).
Defined.

Lemma reclaimAccounts_pays_treasury_witness :
  exists l, run_sent (snd Scenarios.c4_run) = run_sent (Scenarios.run0 Scenarios.db_empty) ++ l /\
    Forall (fun ixs => ixs <> [] /\ Forall (pays_treasury Scenarios.w_live) ixs) l.
Proof.
  apply (reclaimAccounts_pays_treasury Safety.checkAccount_v2 Scenarios.w_live
           (Scenarios.run0 Scenarios.db_empty) Scenarios.elevenAccounts (fst Scenarios.c4_run)).
  vm_compute. reflexivity.
Defined.

Lemma processBatch_store_effect_witness :
  exists inTx, incl inTx Scenarios.c7_batch /\
    ((exists sig, successful ExtraScenarios.batch_br = map (okRec sig) inTx /\
        reclaim_history (run_db (snd ExtraScenarios.batch_run)) =
          reclaim_history ExtraScenarios.db2 ++
          map (fun a => mkHistory (st_pubkey a) (st_lamports a) HSuccess None (or_null sig)
                          (w_now Scenarios.w_live)) inTx /\
        forall k, sponsored_accounts (run_db (snd ExtraScenarios.batch_run)) !! k =
          if bool_decide (k ∈ map st_pubkey inTx)
          then Store.with_status Reclaimed None (w_now Scenarios.w_live) <$>
                 sponsored_accounts ExtraScenarios.db2 !! k
          else sponsored_accounts ExtraScenarios.db2 !! k)
     \/
     (successful ExtraScenarios.batch_br = [] /\
        sponsored_accounts (run_db (snd ExtraScenarios.batch_run)) = sponsored_accounts ExtraScenarios.db2 /\
        exists reason_, reclaim_history (run_db (snd ExtraScenarios.batch_run)) =
          reclaim_history ExtraScenarios.db2 ++
          map (fun a => mkHistory (st_pubkey a) 0 HFailed (Some reason_) None
                          (w_now Scenarios.w_live)) inTx)).
Proof.
  apply (processBatch_store_effect Safety.checkAccount_v2 Scenarios.w_live
           (Scenarios.run0 ExtraScenarios.db2) Scenarios.c7_batch (demoKey "Treas111")).
  vm_compute. reflexivity.
Defined.

Lemma scanAccounts_reclaimable_witness :
  List.Forall (fun st =>
    In (st_pubkey st) (map sa_pubkey (Store.getActiveAccounts ExtraScenarios.db2)) /\
    st_isReclaimable st = true /\ st_isTokenAccount st = true /\
    st_operatorCanClose st = true /\ st_skipReason st = None /\
    st_closeAuthority st = w_operatorKey Scenarios.w_live /\ st_exists st = true)
    (Scanner.sr_reclaimable ExtraScenarios.scan_result).
Proof.
  destruct (scanAccounts_reclaimable Scenarios.w_live ExtraScenarios.rpc_ok 100 ExtraScenarios.db2
              ExtraScenarios.scan_result ExtraScenarios.scan_db) as [H _].
  - vm_compute. reflexivity.
  - apply List.Forall_forall. exact H.
Defined.

Lemma scanAccounts_accounting_witness :
  Scanner.sr_total ExtraScenarios.scan_result = length (Store.getActiveAccounts ExtraScenarios.db2) /\
  (length (Scanner.sr_reclaimable ExtraScenarios.scan_result) +
   length (Scanner.sr_skipped ExtraScenarios.scan_result) <= Scanner.sr_total ExtraScenarios.scan_result)%nat.
Proof.
  destruct (scanAccounts_accounting Scenarios.w_live ExtraScenarios.rpc_ok 100 ExtraScenarios.db2
              ExtraScenarios.scan_result ExtraScenarios.scan_db) as (H1 & _ & H3 & _).
  - vm_compute. reflexivity.
  - split; [exact H1|exact H3].
Defined.

Lemma scanBatch_store_normal_witness :
  List.Forall (fun k =>
    forall a, sponsored_accounts (ExtraScenarios.opt_db ExtraScenarios.batch_ok) !! k = Some a ->
      sa_lastChecked a = Some (w_now Scenarios.w_live))
    (map sa_pubkey (Store.getActiveAccounts ExtraScenarios.db2)).
Proof.
  destruct (scanBatch_store_normal Scenarios.w_live ExtraScenarios.rpc_ok ExtraScenarios.db2
              (Store.getActiveAccounts ExtraScenarios.db2)
              (ExtraScenarios.opt_sts ExtraScenarios.batch_ok)
              (ExtraScenarios.opt_db ExtraScenarios.batch_ok)) as (_ & _ & H).
  - vm_compute. reflexivity.
  - vm_compute. reflexivity.
  - apply List.Forall_forall. intros k Hk a Ha.
    apply (proj1 (proj2 (proj2 (H k)) (proj2 (list_elem_of_In _ _) Hk) a Ha)).
Defined.

Lemma scanBatch_store_fallback_witness :
  (fun a => (sa_lastChecked a, sa_lamports a, sa_status a)) <$>
    sponsored_accounts (ExtraScenarios.opt_db ExtraScenarios.batch_fallback) !! (demoKey "Acct1") =
  (fun a => (sa_lastChecked a, sa_lamports a, sa_status a)) <$>
    sponsored_accounts ExtraScenarios.db2 !! (demoKey "Acct1").
Proof.
  apply (scanBatch_store_fallback Scenarios.w_live ExtraScenarios.rpc_fallback ExtraScenarios.db2
           (Store.getActiveAccounts ExtraScenarios.db2)
           (ExtraScenarios.opt_sts ExtraScenarios.batch_fallback)).
  - vm_compute. reflexivity.
  - vm_compute. reflexivity.
  - vm_compute. discriminate.
Defined.

Lemma scanAccounts_store_frame_witness :
  reclaim_history ExtraScenarios.scan_db = reclaim_history ExtraScenarios.db2 /\
  whitelist ExtraScenarios.scan_db = whitelist ExtraScenarios.db2.
Proof.
  destruct (scanAccounts_store_frame Scenarios.w_live ExtraScenarios.rpc_ok 100 ExtraScenarios.db2
              ExtraScenarios.scan_result ExtraScenarios.scan_db) as (H1 & H2 & _).
  - vm_compute. reflexivity.
  - split; [exact H1|exact H2].
Defined.
